(** * PTV_v3 commute monitor: web/data.js, web/ptv.js, web/logic.js

    A shallow embedding of the browser program.  The three scripts share
    one global scope: [connections] (data.js), the class [PTVv3] (ptv.js)
    and, in logic.js, the functions [checkRoutes] and [updateTable], the
    globals [services] and [everActive], and the three lines that start
    the timers.

    Conventions of the embedding.
    - Instants are JavaScript time values: integer milliseconds since the
      epoch, or NaN for an Invalid Date.  The API's ISO timestamps are
      taken as already parsed.
    - A JavaScript object used as a map with non-numeric string keys is an
      association list in insertion order ([Obj]); an object whose keys are
      array-index-like integers enumerates them in ascending order
      ([IntObj]).
    - [everActive] is a [Set] of strings of which only [has] is ever
      observed, so it is a finite set ([gset string]).
    - [await] on a call to the network is a suspension point: the async
      function [checkRoutes] is a task that is resumed with the settlement
      of the call it waits for. *)

From Stdlib Require Import ZArith List String Ascii Sorted Permutation DecimalString DecimalN.
From Stdlib Require Import Strings.Byte.
From Stdlib Require HexadecimalString.
From stdpp Require Import gmap strings list sorting.

Local Open Scope string_scope.
Local Open Scope Z_scope.

(** ** JavaScript values used by the program *)

Module JS.

(** Numbers.  Every number the program computes with is an integer or
    NaN; NaN arises from arithmetic on [undefined] (a property that is
    missing from an object). *)
Inductive number : Type :=
| Num (z : Z)
| NaN.

Definition add (a b : number) : number :=
  match a, b with
  | Num x, Num y => Num (x + y)
  | _, _ => NaN
  end.

Definition sub (a b : number) : number :=
  match a, b with
  | Num x, Num y => Num (x - y)
  | _, _ => NaN
  end.

Definition mul (a b : number) : number :=
  match a, b with
  | Num x, Num y => Num (x * y)
  | _, _ => NaN
  end.

(** [a < b]: false as soon as one side is NaN. *)
Definition ltb (a b : number) : bool :=
  match a, b with
  | Num x, Num y => x <? y
  | _, _ => false
  end.

(** ToNumber of a property read: [undefined] becomes NaN. *)
Definition ToNumber (v : option Z) : number :=
  match v with
  | Some z => Num z
  | None => NaN
  end.

Definition is_Num (a : number) : Prop :=
  match a with
  | Num _ => True
  | NaN => False
  end.

(** ToString of a non-negative integer: its decimal digits. *)
Definition ToString (n : N) : string := NilEmpty.string_of_uint (N.to_uint n).

(** Objects with string keys that are not array indices: property
    enumeration follows insertion order, assignment to an existing key
    keeps its place. *)
Definition Obj (V : Type) : Type := list (string * V).

Fixpoint get {V} (o : Obj V) (k : string) : option V :=
  match o with
  | [] => None
  | (k', v) :: o' => if String.eqb k k' then Some v else get o' k
  end.

Fixpoint set {V} (o : Obj V) (k : string) (v : V) : Obj V :=
  match o with
  | [] => [(k, v)]
  | (k', v') :: o' =>
      if String.eqb k k' then (k, v) :: o' else (k', v') :: set o' k v
  end.

Definition keys {V} (o : Obj V) : list string := List.map fst o.
Definition values {V} (o : Obj V) : list V := List.map snd o.

Definition fromEntries {V} (entries : list (string * V)) : Obj V :=
  fold_left (fun o kv => set o (fst kv) (snd kv)) entries [].

(** Objects whose keys are array-index-like integers (the catalog, the
    walking tables): enumeration is in ascending numeric order whatever
    the order of the literal. *)
Definition IntObj (V : Type) : Type := list (N * V).

Fixpoint iset {V} (o : IntObj V) (k : N) (v : V) : IntObj V :=
  match o with
  | [] => [(k, v)]
  | (k', v') :: o' =>
      if (k <? k')%N then (k, v) :: (k', v') :: o'
      else if (k =? k')%N then (k, v) :: o'
      else (k', v') :: iset o' k v
  end.

Definition literal {V} (props : list (N * V)) : IntObj V :=
  fold_left (fun o kv => iset o (fst kv) (snd kv)) props [].

Fixpoint iget {V} (o : IntObj V) (k : N) : option V :=
  match o with
  | [] => None
  | (k', v) :: o' => if (k =? k')%N then Some v else iget o' k
  end.

(** [Object.entries]: the keys come out as strings. *)
Definition entries {V} (o : IntObj V) : list (string * V) :=
  List.map (fun kv => (ToString (fst kv), snd kv)) o.

(** [String.prototype.trim], on the ASCII members of WhiteSpace and
    LineTerminator (TAB, LF, VT, FF, CR, SP). *)
Definition is_space (a : ascii) : bool :=
  match N_of_ascii a with
  | 9%N | 10%N | 11%N | 12%N | 13%N | 32%N => true
  | _ => false
  end.

Fixpoint trimStart (s : string) : string :=
  match s with
  | String a s' => if is_space a then trimStart s' else s
  | EmptyString => EmptyString
  end.

Definition trim (s : string) : string :=
  String.rev (trimStart (String.rev (trimStart s))).

(** [Array.prototype.sort(compareFn)].  The sort is stable and a NaN
    returned by [compareFn] counts as 0.  For a consistent [compareFn]
    that fixes the result, which is computed here by insertion: the
    elements go in from the last to the first, each in front of the first
    element that it does not come after, so that equal elements keep
    their original order. *)
Definition compare_sign (v : number) : Z :=
  match v with
  | Num z => z
  | NaN => 0
  end.

Fixpoint insert {A} (compareFn : A -> A -> number) (x : A) (l : list A) : list A :=
  match l with
  | [] => [x]
  | y :: l' =>
      if compare_sign (compareFn x y) <=? 0 then x :: y :: l'
      else y :: insert compareFn x l'
  end.

Fixpoint sort {A} (compareFn : A -> A -> number) (l : list A) : list A :=
  match l with
  | [] => []
  | x :: l' => insert compareFn x (sort compareFn l')
  end.

End JS.

(** ** web/data.js: the catalog of connections *)

Record Direction : Type := {
  dir_id : N;
  origin : N;
  destination : N
}.

Record Duration : Type := {
  min : Z;
  max : Z;
  avg : Z
}.

Record Connection : Type := {
  id : N;
  type : N;
  name : string;
  number : string;
  forward_direction : Direction;
  reverse_direction : option Direction;
  walking : JS.IntObj Z;
  duration : Duration
}.

Definition connections : JS.IntObj Connection := JS.literal [
  (13067%N, {| id := 13067; type := 2;
     name := "Elwood - Monash University via Gardenvale & Ormond & Huntingdale";
     number := "630";
     forward_direction := {| dir_id := 188; origin := 22875; destination := 33430 |};
     reverse_direction := Some {| dir_id := 189; origin := 33430; destination := 18098 |};
     walking := JS.literal [(22875%N, 571); (33430%N, 430); (18098%N, 617)];
     duration := {| min := 480; max := 960; avg := 620 |} |});
  (13271%N, {| id := 13271; type := 2;
     name := "Oakleigh - Box Hill via Clayton & Monash University & Mt Waverley";
     number := "733";
     forward_direction := {| dir_id := 32; origin := 22833; destination := 33430 |};
     reverse_direction := Some {| dir_id := 184; origin := 33430; destination := 22833 |};
     walking := JS.literal [(22833%N, 115); (33430%N, 430)];
     duration := {| min := 1200; max := 1740; avg := 1468 |} |});
  (14930%N, {| id := 14930; type := 2;
     name := "Ringwood - Chadstone SC via Vermont South & Glen Waverley & Oakleigh";
     number := "742";
     forward_direction := {| dir_id := 55; origin := 16339; destination := 13496 |};
     reverse_direction := Some {| dir_id := 181; origin := 13496; destination := 16339 |};
     walking := JS.literal [(16339%N, 740); (13496%N, 519)];
     duration := {| min := 840; max := 1080; avg := 944 |} |});
  (13820%N, {| id := 13820; type := 2;
     name := "Dandenong - Chadstone via Princes Highway & Oakleigh";
     number := "800";
     forward_direction := {| dir_id := 260; origin := 10005; destination := 10016 |};
     reverse_direction := None;
     walking := JS.literal [(10005%N, 588); (10016%N, 553)];
     duration := {| min := 660; max := 1020; avg := 786 |} |});
  (8924%N, {| id := 8924; type := 2;
     name := "Dandenong - Chadstone via Mulgrave & Oakleigh";
     number := "802";
     forward_direction := {| dir_id := 260; origin := 10005; destination := 33430 |};
     reverse_direction := None;
     walking := JS.literal [(10005%N, 588); (33430%N, 430)];
     duration := {| min := 660; max := 960; avg := 802 |} |});
  (8934%N, {| id := 8934; type := 2;
     name := "Dandenong - Chadstone via Wheelers Hill & Oakleigh";
     number := "804";
     forward_direction := {| dir_id := 260; origin := 10005; destination := 33430 |};
     reverse_direction := None;
     walking := JS.literal [(10005%N, 588); (33430%N, 430)];
     duration := {| min := 600; max := 1020; avg := 808 |} |});
  (8922%N, {| id := 8922; type := 2;
     name := "Dandenong - Chadstone via North Dandenong & Oakleigh";
     number := "862";
     forward_direction := {| dir_id := 260; origin := 10005; destination := 33430 |};
     reverse_direction := None;
     walking := JS.literal [(10005%N, 588); (33430%N, 430)];
     duration := {| min := 600; max := 960; avg := 750 |} |});
  (12753%N, {| id := 12753; type := 2;
     name := "Stud Park SC (Rowville) - Caulfield via Monash University & Chadstone (SMARTBUS Service)";
     number := "900";
     forward_direction := {| dir_id := 293; origin := 16339; destination := 33430 |};
     reverse_direction := Some {| dir_id := 294; origin := 33430; destination := 16339 |};
     walking := JS.literal [(16339%N, 740); (33430%N, 430)];
     duration := {| min := 600; max := 1140; avg := 858 |} |});
  (11%N, {| id := 11; type := 0;
     name := "Pakenham";
     number := "Train";
     forward_direction := {| dir_id := 10; origin := 1150; destination := 1099 |};
     reverse_direction := Some {| dir_id := 1; origin := 1099; destination := 1150 |};
     walking := JS.literal [(1150%N, 821); (1099%N, 430)];
     duration := {| min := 747; max := 1047; avg := 751 |} |});
  (4%N, {| id := 4; type := 0;
     name := "Cranbourne";
     number := "Train";
     forward_direction := {| dir_id := 4; origin := 1150; destination := 1099 |};
     reverse_direction := Some {| dir_id := 1; origin := 1099; destination := 1150 |};
     walking := JS.literal [(1150%N, 821); (1099%N, 430)];
     duration := {| min := 747; max := 1047; avg := 751 |} |})
].

(** ** The decoded payloads of the PTV Timetable API

    A field is optional where the program tests for it ([runs],
    [departures], [vehicle_position], [estimated_departure_utc]) and
    required where it reads it without a test.  A [run_ref] is a string,
    a direction id a number; [disruptions] lists the properties of the
    object of that name in the order [Object.values] gives them. *)

Record VehiclePosition : Type := {
  datetime_utc : string;
  bearing : option Z
}.

Module Run.
Record t : Type := {
  run_ref : string;
  direction_id : N;
  vehicle_position : option VehiclePosition
}.
End Run.

Module Departure.
Record t : Type := {
  run_ref : string;
  scheduled_departure_utc : Z;
  estimated_departure_utc : option Z
}.
End Departure.

Record Disruption : Type := {
  title : string
}.

Module Json.
Record t : Type := {
  runs : option (list Run.t);
  departures : option (list Departure.t);
  disruptions : JS.Obj Disruption
}.
End Json.

(** ** web/ptv.js: the signed API client *)

(** The settlement of a promise. *)
Inductive Settled (A : Type) : Type :=
| Resolved (a : A)
| Rejected.
Arguments Resolved {A} a.
Arguments Rejected {A}.

(** What [fetch] hands back: a rejection (network failure) or a response
    with its [ok] flag, its status text and its body, which decodes to a
    payload or fails to. *)
Record Response : Type := {
  ok : bool;
  statusText : string;
  json : Settled Json.t
}.

Record PTVv3 : Type := {
  baseUrl : string;
  ptv_id : string;
  ptv_key : string;
  debug : bool
}.

(** The constructor, with [debug] at its default. *)
Definition new_PTVv3 (ptvId ptvKey : string) : PTVv3 :=
  {| baseUrl := "https://timetableapi.ptv.vic.gov.au";
     ptv_id := ptvId;
     ptv_key := ptvKey;
     debug := false |}.

(** The browser services the client relies on: WebCrypto's HMAC-SHA1
    behind [generateSignature] (key, request) and [fetch] (url). *)
Record Browser : Type := {
  generateSignature : string -> string -> Settled string;
  fetch : string -> Settled Response
}.

(** [Array.prototype.join]. *)
Fixpoint join (sep : string) (l : list string) : string :=
  match l with
  | [] => ""
  | [s] => s
  | s :: l' => s +:+ sep +:+ join sep l'
  end.

(** [URLSearchParams.toString]; the names and values the program passes
    are letters, digits and underscores, which are not escaped. *)
Definition URLSearchParams_toString (params : JS.Obj string) : string :=
  join "&" (List.map (fun kv => fst kv +:+ "=" +:+ snd kv) params).

(** [call] (lines 31-49).  The [console.log] of the debug mode is not
    part of the result. *)
Definition PTVv3_call (b : Browser) (this : PTVv3)
    (endpoint : string) (params : JS.Obj string) : Settled Json.t :=
  let params := JS.set params "devid" (ptv_id this) in
  let query := URLSearchParams_toString params in
  let request := endpoint +:+ "?" +:+ query in
  match generateSignature b (ptv_key this) request with
  | Rejected => Rejected
  | Resolved signature =>
      let url := baseUrl this +:+ request +:+ "&signature=" +:+ signature in
      match fetch b url with
      | Rejected => Rejected
      | Resolved response =>
          if negb (ok response) then Rejected
          else json response
      end
  end.

(** ** web/logic.js *)

Record Health : Type := {
  run_active : bool;
  has_estimated : bool;
  route_active : bool
}.

Module Service.
Record t : Type := {
  id : string;
  run_ref : string;
  route_id : N;
  health : Health;
  get_going_by : JS.number;
  arrive_by : JS.number;
  disruptions : list string
}.
End Service.

(** The two globals of logic.js: [services] and [everActive]. *)
Record Globals : Type := {
  services : JS.Obj Service.t;
  everActive : gset string
}.

Definition default_buffer : Z := 120.

(** *** checkRoutes, one connection (lines 23-79) *)

Definition runs_endpoint (routeId : string) (routeType : N) : string :=
  "/v3/runs/route/" +:+ routeId +:+ "/route_type/" +:+ JS.ToString routeType.

Definition runs_params : JS.Obj string := [("expand", "VehiclePosition")].

Definition departures_endpoint (routeType stopId : N) (routeId : string) : string :=
  "/v3/departures/route_type/" +:+ JS.ToString routeType
    +:+ "/stop/" +:+ JS.ToString stopId +:+ "/route/" +:+ routeId.

Definition departures_params (directionId : N) : JS.Obj string :=
  [("direction_id", JS.ToString directionId); ("max_results", "5"); ("expand", "Disruption")].

(** Line 41: the runs of this poll that report a vehicle position and go
    in the forward direction, keyed by [run_ref]. *)
Definition is_active (directionId : N) (run : Run.t) : bool :=
  match Run.vehicle_position run with
  | Some _ => true
  | None => false
  end && (Run.direction_id run =? directionId)%N.

Definition activeRuns_of (runs : Json.t) (directionId : N) : JS.Obj Run.t :=
  match Json.runs runs with
  | Some rs =>
      JS.fromEntries
        (List.map (fun run => (Run.run_ref run, run)) (List.filter (is_active directionId) rs))
  | None => []
  end.

(** Lines 42 and 127: [everActive] is replaced by its union with the keys
    of [activeRuns], and only when the payload has a [runs] array. *)
Definition observe (runs : Json.t) (activeRuns : JS.Obj Run.t)
    (everActive : gset string) : gset string :=
  match Json.runs runs with
  | Some _ => list_to_set (JS.keys activeRuns) ∪ everActive
  | None => everActive
  end.

(** Line 62. *)
Definition idString (routeId : string) (directionId stopId : N) (index : nat) : string :=
  routeId +:+ "-" +:+ JS.ToString directionId +:+ "-" +:+ JS.ToString stopId
    +:+ "-" +:+ JS.ToString (N.of_nat index).

(** Line 53: the estimated instant when there is one, else the scheduled
    one. *)
Definition departureTime (departure : Departure.t) : Z :=
  match Departure.estimated_departure_utc departure with
  | Some estimated => estimated
  | None => Departure.scheduled_departure_utc departure
  end.

(** Lines 49-77: the Service written for the departure at [index]. *)
Definition build (routeId : string) (connection : Connection) (buffer : Z)
    (activeRuns : JS.Obj Run.t) (everActive : gset string)
    (departures : Json.t) (index : nat) (departure : Departure.t) : Service.t :=
  let stopId := origin (forward_direction connection) in
  let directionId := dir_id (forward_direction connection) in
  let routeActive := (0 <? length (JS.keys activeRuns))%nat in
  let runActive := bool_decide (Departure.run_ref departure ∈ everActive) in
  let hasEstimated :=
    match Departure.estimated_departure_utc departure with
    | Some _ => true
    | None => false
    end in
  let disruptions :=
    List.map (fun disruption => JS.trim (title disruption))
             (JS.values (Json.disruptions departures)) in
  let departureTime := JS.Num (departureTime departure) in
  let walkBefore :=
    JS.ToNumber (JS.iget (walking connection) (origin (forward_direction connection))) in
  let getGoingBy :=
    JS.sub (JS.sub departureTime (JS.mul walkBefore (JS.Num 1000)))
           (JS.mul (JS.Num buffer) (JS.Num 1000)) in
  let tripDuration := JS.mul (JS.Num (avg (duration connection))) (JS.Num 1000) in
  let walkAfter :=
    JS.mul (JS.ToNumber (JS.iget (walking connection)
                                 (destination (forward_direction connection))))
           (JS.Num 1000) in
  let arriveBy := JS.add (JS.add departureTime tripDuration) walkAfter in
  let idString := idString routeId directionId stopId index in
  {| Service.id := idString;
     Service.run_ref := Departure.run_ref departure;
     Service.route_id := id connection;
     Service.health :=
       {| run_active := runActive;
          has_estimated := hasEstimated;
          route_active := routeActive |};
     Service.get_going_by := getGoingBy;
     Service.arrive_by := arriveBy;
     Service.disruptions := disruptions |}.

(** [Array.prototype.entries]. *)
Definition array_entries {A} (l : list A) : list (nat * A) :=
  combine (seq 0 (length l)) l.

(** Lines 47-78: one assignment [services[idString] = ...] per departure. *)
Definition write (routeId : string) (connection : Connection) (buffer : Z)
    (activeRuns : JS.Obj Run.t) (everActive : gset string) (departures : Json.t)
    (services : JS.Obj Service.t) (entry : nat * Departure.t) : JS.Obj Service.t :=
  let service :=
    build routeId connection buffer activeRuns everActive departures (fst entry) (snd entry) in
  JS.set services
         (idString routeId (dir_id (forward_direction connection))
                   (origin (forward_direction connection)) (fst entry))
         service.

(** Lines 38-79: what one iteration of the loop over the connections does
    to the globals once both calls have resolved. *)
Definition merge (g : Globals) (routeId : string) (connection : Connection)
    (buffer : Z) (runs departures : Json.t) : Globals :=
  let directionId := dir_id (forward_direction connection) in
  let activeRuns := activeRuns_of runs directionId in
  let everActive' := observe runs activeRuns (everActive g) in
  let services' :=
    match Json.departures departures with
    | Some ds =>
        fold_left (write routeId connection buffer activeRuns everActive' departures)
                  (array_entries ds) (services g)
    | None => services g
    end in
  {| services := services'; everActive := everActive' |}.

(** *** checkRoutes (lines 14-81)

    The progress bar (lines 16-19, 28, 36) is write-only presentation
    state and is left out.  [ptv] is the client built on line 1 from an id
    and a key that are defined outside these sources.  An [await] whose
    call is rejected throws; nothing catches it, so the promise returned
    by [checkRoutes] is rejected with the globals as they are then. *)
Inductive Completion : Type :=
| Fulfilled (g : Globals)
| Failed (g : Globals).

Definition globals_of (c : Completion) : Globals :=
  match c with
  | Fulfilled g => g
  | Failed g => g
  end.

Definition call_runs (b : Browser) (ptv : PTVv3) (routeId : string)
    (connection : Connection) : Settled Json.t :=
  PTVv3_call b ptv (runs_endpoint routeId (type connection)) runs_params.

Definition call_departures (b : Browser) (ptv : PTVv3) (routeId : string)
    (connection : Connection) : Settled Json.t :=
  PTVv3_call b ptv
    (departures_endpoint (type connection) (origin (forward_direction connection)) routeId)
    (departures_params (dir_id (forward_direction connection))).

Fixpoint checkRoutes_loop (b : Browser) (ptv : PTVv3) (buffer : Z)
    (entries : list (string * Connection)) (g : Globals) : Completion :=
  match entries with
  | [] => Fulfilled g
  | (routeId, connection) :: rest =>
      match call_runs b ptv routeId connection with
      | Rejected => Failed g
      | Resolved runs =>
          match call_departures b ptv routeId connection with
          | Rejected => Failed g
          | Resolved departures =>
              checkRoutes_loop b ptv buffer rest
                               (merge g routeId connection buffer runs departures)
          end
      end
  end.

Definition checkRoutes (b : Browser) (ptv : PTVv3) (g : Globals) (buffer : Z) : Completion :=
  checkRoutes_loop b ptv buffer (JS.entries connections) g.

(** *** formatTimeDelta (lines 3-12) *)

Definition padStart (s : string) (targetLength : nat) (pad : ascii) : string :=
  string_of_list_ascii (repeat pad (targetLength - String.length s)) +:+ s.

(** ToString of the numbers [formatTimeDelta] prints: non-negative
    integers, or NaN. *)
Definition show (v : JS.number) : string :=
  match v with
  | JS.Num z => JS.ToString (Z.to_N z)
  | JS.NaN => "NaN"
  end.

Definition floor_div (v : JS.number) (d : Z) : JS.number :=
  match v with
  | JS.Num z => JS.Num (z / d)
  | JS.NaN => JS.NaN
  end.

Definition remainder (v : JS.number) (d : Z) : JS.number :=
  match v with
  | JS.Num z => JS.Num (Z.rem z d)
  | JS.NaN => JS.NaN
  end.

Definition formatTimeDelta (ms : JS.number) : string :=
  let sign := if JS.ltb ms (JS.Num 0) then "-" else "" in
  let ms := match ms with JS.Num z => JS.Num (Z.abs z) | JS.NaN => JS.NaN end in
  let seconds := remainder (floor_div ms 1000) 60 in
  let minutes := remainder (floor_div ms 60000) 60 in
  let hours := floor_div ms 3600000 in
  let hours_positive := JS.ltb (JS.Num 0) hours in
  sign +:+ (if hours_positive then show hours +:+ ":" else "")
       +:+ padStart (show minutes) (if hours_positive then 2 else 1) "0"
       +:+ ":" +:+ padStart (show seconds) 2 "0".

(** *** updateTable (lines 83-124) *)

Definition legend : list string := ["⚫"; "🔴"; "🟡"; "🟢"].

(** The property list of a [health] object, in the order of the literal
    on lines 69-73. *)
Definition health_props (h : Health) : JS.Obj bool :=
  [("run_active", run_active h);
   ("has_estimated", has_estimated h);
   ("route_active", route_active h)].

(** Line 100. *)
Definition healthScore (h : Health) : nat :=
  fold_left (fun acc (val : bool) => (acc + (if val then 1 else 0))%nat)
            (JS.values (health_props h)) 0%nat.

(** Line 88. *)
Definition by_arrival (a b : Service.t) : JS.number :=
  JS.sub (Service.arrive_by a) (Service.arrive_by b).

Definition sortedServices (services : JS.Obj Service.t) : list Service.t :=
  JS.sort by_arrival (JS.values services).

(** Line 93, with [now] the value of [new Date()]. *)
Definition td (service : Service.t) (now : Z) : JS.number :=
  JS.sub (Service.get_going_by service) (JS.Num now).

(** Lines 94-97: a service is skipped when [td < -buffer * 1000]. *)
Definition skipped (buffer now : Z) (service : Service.t) : bool :=
  JS.ltb (td service now) (JS.Num (- buffer * 1000)).

(** The services that get a row, in the order of their rows. *)
Definition listed (services : JS.Obj Service.t) (buffer now : Z) : list Service.t :=
  List.filter (fun service => negb (skipped buffer now service)) (sortedServices services).

(** One row of the table.  The text of the arrival cell (a local time of
    day, line 117) depends on the browser's locale and time zone and is
    left out; [healthCell] is [None] where [legend[healthScore]] would be
    [undefined]. *)
Record Row : Type := {
  healthCell : option string;
  healthTitle : string;
  routeCell : string;
  routeTitle : string;
  timerCell : string;
  timerTitle : string;
  arrivalTitle : string;
  alertsCell : string;
  alertsTitle : string
}.

Definition blank_lines : string := String "010" (String "010" "").

Fixpoint repeat_string (s : string) (count : nat) : string :=
  match count with
  | O => ""
  | S count' => s +:+ repeat_string s count'
  end.

(** Lines 99-122.  Reading [.number] of a connection that is not in the
    catalog throws a TypeError. *)
Definition render (now : Z) (service : Service.t) : Settled Row :=
  let h := Service.health service in
  match JS.iget connections (Service.route_id service) with
  | None => Rejected
  | Some connection =>
      Resolved
        {| healthCell := nth_error legend (healthScore h);
           healthTitle :=
             join blank_lines
                  (List.map (fun kv => (if snd kv : bool then "✔ " else "✖ ") +:+ fst kv)
                            (health_props h));
           routeCell := number connection;
           routeTitle := name connection;
           timerCell := formatTimeDelta (td service now);
           timerTitle := Service.id service;
           arrivalTitle := Service.run_ref service;
           alertsCell := repeat_string "❗" (length (Service.disruptions service));
           alertsTitle := JS.trim (join blank_lines (Service.disruptions service)) |}
  end.

(** The body of the table after the call, or [Rejected] when rendering
    stopped at a TypeError (the table is then left partly filled). *)
Fixpoint render_all (now : Z) (l : list Service.t) : Settled (list Row) :=
  match l with
  | [] => Resolved []
  | service :: l' =>
      match render now service with
      | Rejected => Rejected
      | Resolved row =>
          match render_all now l' with
          | Rejected => Rejected
          | Resolved rows => Resolved (row :: rows)
          end
      end
  end.

Definition updateTable (services : JS.Obj Service.t) (buffer now : Z) : Settled (list Row) :=
  render_all now (listed services buffer now).

(** *** The event loop (lines 126-131)

    [checkRoutes] is an async function: a call runs up to its first
    [await] and is then a suspended task, resumed when the awaited call
    settles.  Browser callbacks run one at a time, so a state of the
    program is its globals together with the suspended tasks, and an event
    is a timer firing or the settlement of one task's pending call.  How
    long a call takes is up to the network, so any order of events is
    possible. *)

Inductive Await : Type :=
| AwaitRuns
| AwaitDepartures (runs : Json.t).

(** A suspended call of [checkRoutes]: the connection whose calls are in
    progress, the entries still to visit after it, and the pending
    [await]. *)
Record Task : Type := {
  current : string * Connection;
  rest : list (string * Connection);
  waiting : Await;
  buffer : Z
}.

Inductive Outcome : Type :=
| Suspended (t : Task)
| Returned
| Threw.

(** Entering the loop of line 21 at the given entries. *)
Definition enter (entries : list (string * Connection)) (buffer : Z) : Outcome :=
  match entries with
  | [] => Returned
  | entry :: rest =>
      Suspended {| current := entry; rest := rest; waiting := AwaitRuns; buffer := buffer |}
  end.

(** Resuming a task with the settlement of the call it awaits. *)
Definition resume (g : Globals) (t : Task) (r : Settled Json.t) : Globals * Outcome :=
  match r with
  | Rejected => (g, Threw)
  | Resolved payload =>
      match waiting t with
      | AwaitRuns =>
          (g, Suspended {| current := current t; rest := rest t;
                           waiting := AwaitDepartures payload; buffer := buffer t |})
      | AwaitDepartures runs =>
          (merge g (fst (current t)) (snd (current t)) (buffer t) runs payload,
           enter (rest t) (buffer t))
      end
  end.

(** The call a suspended task is waiting for. *)
Definition pending (b : Browser) (ptv : PTVv3) (t : Task) : Settled Json.t :=
  match waiting t with
  | AwaitRuns => call_runs b ptv (fst (current t)) (snd (current t))
  | AwaitDepartures _ => call_departures b ptv (fst (current t)) (snd (current t))
  end.

Record World : Type := {
  globals : Globals;
  tasks : list Task;
  unhandled : nat
}.

Inductive Event : Type :=
| Refresh
| Tick (now : Z)
| Settle (i : nat) (r : Settled Json.t).

(** A call [checkRoutes(services)] from a callback (lines 129 and 131);
    [buffer] takes its default. *)
Definition launch (w : World) : World :=
  match enter (JS.entries connections) default_buffer with
  | Suspended t =>
      {| globals := globals w; tasks := tasks w ++ [t]; unhandled := unhandled w |}
  | _ => w
  end.

(** Lines 126-129. *)
Definition boot : World :=
  launch {| globals := {| services := []; everActive := ∅ |};
            tasks := [];
            unhandled := 0 |}.

(** One callback.  [Tick] runs [updateTable], which reads [services] and
    rewrites the table from scratch; it changes nothing in the state. *)
Definition step (w : World) (e : Event) : option World :=
  match e with
  | Refresh => Some (launch w)
  | Tick now => Some w
  | Settle i r =>
      match tasks w !! i with
      | None => None
      | Some t =>
          let (g, outcome) := resume (globals w) t r in
          Some
            match outcome with
            | Suspended t' =>
                {| globals := g; tasks := <[i := t']> (tasks w); unhandled := unhandled w |}
            | Returned =>
                {| globals := g; tasks := delete i (tasks w); unhandled := unhandled w |}
            | Threw =>
                {| globals := g; tasks := delete i (tasks w); unhandled := S (unhandled w) |}
            end
      end
  end.

Fixpoint run (w : World) (events : list Event) : option World :=
  match events with
  | [] => Some w
  | e :: events' =>
      match step w e with
      | Some w' => run w' events'
      | None => None
      end
  end.

(** What the table shows after a tick at [now]. *)
Definition shown (w : World) (now : Z) : Settled (list Row) :=
  updateTable (services (globals w)) default_buffer now.

(** A task driven to its end with no other callback in between, every
    call settled by the browser [b]. *)
Fixpoint drive (fuel : nat) (b : Browser) (ptv : PTVv3) (g : Globals) (t : Task)
    : option Completion :=
  match fuel with
  | O => None
  | S fuel' =>
      match resume g t (pending b ptv t) with
      | (g', Suspended t') => drive fuel' b ptv g' t'
      | (g', Returned) => Some (Fulfilled g')
      | (g', Threw) => Some (Failed g')
      end
  end.

(** The Services that the resumption of a task writes. *)
Definition built_by_merge (g : Globals) (routeId : string) (connection : Connection)
    (buffer : Z) (runs departures : Json.t) : list Service.t :=
  let activeRuns := activeRuns_of runs (dir_id (forward_direction connection)) in
  match Json.departures departures with
  | Some ds =>
      List.map (fun entry =>
                  build routeId connection buffer activeRuns
                        (observe runs activeRuns (everActive g)) departures
                        (fst entry) (snd entry))
               (array_entries ds)
  | None => []
  end.

Definition built_by (w : World) (e : Event) : list Service.t :=
  match e with
  | Settle i (Resolved payload) =>
      match tasks w !! i with
      | Some t =>
          match waiting t with
          | AwaitDepartures runs =>
              built_by_merge (globals w) (fst (current t)) (snd (current t))
                             (buffer t) runs payload
          | AwaitRuns => []
          end
      | None => []
      end
  | _ => []
  end.

(** ** Predicates used in the statements *)

(** The separator of the composite ids. *)
Definition dash : ascii := "-"%char.

Fixpoint has_dash (s : string) : bool :=
  match s with
  | EmptyString => false
  | String a s' => Ascii.eqb a dash || has_dash s'
  end.


(** The slot range of a poll: [max_results] on line 33. *)
Definition maxResults : nat := 5.

(** Complete replacement of a connection's slot range by one iteration:
    after it, each slot of the range holds the Service built from the
    departure at that index, and nothing where there is no such
    departure. *)
Definition replaces_slot_range (g : Globals) (routeId : string) (connection : Connection)
    (buffer : Z) (runs departures : Json.t) : Prop :=
  forall index, (index < maxResults)%nat ->
    JS.get (services (merge g routeId connection buffer runs departures))
           (idString routeId (dir_id (forward_direction connection))
                     (origin (forward_direction connection)) index)
    = built_by_merge g routeId connection buffer runs departures !! index.

(** ** Sample data: two polls of the Cranbourne line *)

Definition cranbourne : Connection :=
  {| id := 4; type := 0;
     name := "Cranbourne";
     number := "Train";
     forward_direction := {| dir_id := 4; origin := 1150; destination := 1099 |};
     reverse_direction := Some {| dir_id := 1; origin := 1099; destination := 1150 |};
     walking := JS.literal [(1150%N, 821); (1099%N, 430)];
     duration := {| min := 747; max := 1047; avg := 751 |} |}.

Definition no_globals : Globals := {| services := []; everActive := ∅ |}.

(** 2024-01-01T08:00:00Z and 08:30:00Z. *)
Definition train_0800 : Departure.t :=
  {| Departure.run_ref := "955701";
     Departure.scheduled_departure_utc := 1704096000000;
     Departure.estimated_departure_utc := None |}.

Definition train_0830 : Departure.t :=
  {| Departure.run_ref := "955702";
     Departure.scheduled_departure_utc := 1704097800000;
     Departure.estimated_departure_utc := Some 1704097860000 |}.

Definition departures_payload (ds : list Departure.t) : Json.t :=
  {| Json.runs := None; Json.departures := Some ds; Json.disruptions := [] |}.

Definition runs_payload (rs : list Run.t) : Json.t :=
  {| Json.runs := Some rs; Json.departures := None; Json.disruptions := [] |}.

Definition tracked (run_ref : string) (direction : N) : Run.t :=
  {| Run.run_ref := run_ref;
     Run.direction_id := direction;
     Run.vehicle_position :=
       Some {| datetime_utc := "2024-01-01T07:40:00Z"; bearing := None |} |}.

Definition untracked (run_ref : string) (direction : N) : Run.t :=
  {| Run.run_ref := run_ref; Run.direction_id := direction; Run.vehicle_position := None |}.

(** A first poll that returns two departures. *)
Definition first_poll_runs : Json.t :=
  runs_payload [tracked "955701" 4; untracked "955702" 4].

Definition first_poll_departures : Json.t :=
  departures_payload [train_0800; train_0830].

Definition after_first_poll : Globals :=
  merge no_globals "4" cranbourne default_buffer first_poll_runs first_poll_departures.

Definition first_poll_service : Service.t :=
  build "4" cranbourne default_buffer (activeRuns_of first_poll_runs 4)
        (everActive after_first_poll) first_poll_departures 0 train_0800.

Definition pakenham : Connection :=
  {| id := 11; type := 0;
     name := "Pakenham";
     number := "Train";
     forward_direction := {| dir_id := 10; origin := 1150; destination := 1099 |};
     reverse_direction := Some {| dir_id := 1; origin := 1099; destination := 1150 |};
     walking := JS.literal [(1150%N, 821); (1099%N, 430)];
     duration := {| min := 747; max := 1047; avg := 751 |} |}.

(** The same poll followed by the iteration for the Pakenham line. *)
Definition after_both_polls : Globals :=
  merge after_first_poll "11" pakenham default_buffer
        (runs_payload [tracked "955801" 10])
        (departures_payload [train_0800]).

(** A second poll of the Cranbourne line in which run 955701, tracked in
    the first poll, comes without a vehicle position. *)
Definition second_poll_runs : Json.t := runs_payload [untracked "955701" 4].

Definition second_poll_departures : Json.t := departures_payload [train_0800].

Definition after_second_poll : Globals :=
  merge after_first_poll "4" cranbourne default_buffer
        second_poll_runs second_poll_departures.

Definition second_poll_service : Service.t :=
  build "4" cranbourne default_buffer (activeRuns_of second_poll_runs 4)
        (everActive after_second_poll) second_poll_departures 0 train_0800.

(** The world reached from [w] by the given callbacks ([w] itself when
    one of them is not enabled). *)
Definition after (w : World) (events : list Event) : World :=
  default w (run w events).

(** The program between two refreshes, after the first poll, and the
    callbacks of a refresh whose first connection gets the second poll. *)
Definition quiet_world : World :=
  {| globals := after_first_poll; tasks := []; unhandled := 0 |}.

Definition second_refresh : list Event :=
  [Refresh; Tick 1704095000000; Settle 0 (Resolved second_poll_runs)].

Definition second_poll_settles : Event := Settle 0 (Resolved second_poll_departures).

(** From the start of the program: the first refresh gets its first poll,
    then the timer fires while that refresh is still in flight and the
    second refresh gets the second poll. *)
Definition first_poll_awaited : World :=
  after boot [Settle 0 (Resolved first_poll_runs)].

Definition first_poll_settles : Event := Settle 0 (Resolved first_poll_departures).

Definition overlapping_refresh : list Event :=
  [Refresh; Settle 1 (Resolved second_poll_runs)].

Definition overlapped_poll_settles : Event := Settle 1 (Resolved second_poll_departures).

(** No re-entrancy: at most one call of [checkRoutes] is in flight. *)
Definition one_refresh_at_a_time (w : World) : Prop := (length (tasks w) <= 1)%nat.

(** A browser whose network fails for the runs of route 4 and answers
    every other request with one departure. *)
Definition sample_ptv : PTVv3 := new_PTVv3 "3000001" "9c132d31-6a30-4cac-8d8b-8a1970834799".

Definition one_departure : Json.t :=
  {| Json.runs := Some []; Json.departures := Some [train_0800]; Json.disruptions := [] |}.

Definition flaky : Browser :=
  {| generateSignature := fun key request => Resolved "0f1e2d3c4b5a69788796a5b4c3d2e1f001234567";
     fetch := fun url =>
       if String.prefix "https://timetableapi.ptv.vic.gov.au/v3/runs/route/4/" url
       then Rejected
       else Resolved {| ok := true; statusText := "OK"; json := Resolved one_departure |} |}.

(** A Service with both deadlines valid dates and a route that is in the
    catalog. *)
Definition well_formed (service : Service.t) : Prop :=
  JS.is_Num (Service.get_going_by service)
  /\ JS.is_Num (Service.arrive_by service)
  /\ is_Some (JS.iget connections (Service.route_id service)).

(** [a] arrives no later than [b]. *)
Definition arrives_no_later (a b : Service.t) : Prop :=
  exists x y, Service.arrive_by a = JS.Num x /\ Service.arrive_by b = JS.Num y /\ x <= y.

(** The time remaining to get going, [get_going_by - now], has not fallen
    below [- buffer] seconds. *)
Definition window_open (buffer now : Z) (service : Service.t) : Prop :=
  exists going, Service.get_going_by service = JS.Num going
                /\ - (buffer * 1000) <= going - now.

(** An entry of a catalog whose connection is filed under its own id and
    has walking times for both stops of its forward direction. *)
Definition usable (entry : string * Connection) : Prop :=
  is_Some (JS.iget connections (id (snd entry)))
  /\ is_Some (JS.iget (walking (snd entry)) (origin (forward_direction (snd entry))))
  /\ is_Some (JS.iget (walking (snd entry)) (destination (forward_direction (snd entry)))).

(** The invariant of the event loop behind [well_formed]: the table holds
    well-formed Services and every task walks usable entries. *)
Definition sound (w : World) : Prop :=
  Forall well_formed (JS.values (services (globals w)))
  /\ Forall (fun t => Forall usable (current t :: rest t)) (tasks w).

(** ** Sample data: times of day on 1970-01-01 *)

Definition clock (hours minutes seconds : Z) : Z :=
  ((hours * 60 + minutes) * 60 + seconds) * 1000.

(** A stop 300 s from home on a route that takes 600 s to a stop 430 s
    from the destination. *)
Definition short_hop : Connection :=
  {| id := 4; type := 0;
     name := "Cranbourne";
     number := "Train";
     forward_direction := {| dir_id := 4; origin := 1150; destination := 1099 |};
     reverse_direction := None;
     walking := JS.literal [(1150%N, 300); (1099%N, 430)];
     duration := {| min := 540; max := 660; avg := 600 |} |}.

Definition scheduled_0800 : Departure.t :=
  {| Departure.run_ref := "955701";
     Departure.scheduled_departure_utc := clock 8 0 0;
     Departure.estimated_departure_utc := None |}.

Definition arriving (name : string) (arrive : Z) : Service.t :=
  {| Service.id := name;
     Service.run_ref := "955701";
     Service.route_id := 4;
     Service.health := {| run_active := false; has_estimated := false; route_active := false |};
     Service.get_going_by := JS.Num (arrive - 1800000);
     Service.arrive_by := JS.Num arrive;
     Service.disruptions := [] |}.

(** ** web/ptv.js: generateSignature (lines 51-60)

    [SubtleCrypto.importKey] followed by [SubtleCrypto.sign] with HMAC and
    SHA-1 is a service of the browser: the digest of the data under the
    key, or a rejection.  Strings are held as their UTF-8 bytes, which is
    what [TextEncoder.encode] returns. *)
Record SubtleCrypto : Type := {
  sign_HMAC_SHA1 : list byte -> list byte -> Settled (list byte)
}.

Definition encode (s : string) : list byte := list_byte_of_string s.

(** [b.toString(16)] for an element of a [Uint8Array]. *)
Definition toString16 (b : byte) : string :=
  HexadecimalString.NilEmpty.string_of_uint (N.to_hex_uint (Byte.to_N b)).

(** Line 59. *)
Definition hexdigest (signature : list byte) : string :=
  join "" (List.map (fun b => padStart (toString16 b) 2 "0") signature).

Definition PTVv3_generateSignature (subtle : SubtleCrypto) (key request : string)
    : Settled string :=
  match sign_HMAC_SHA1 subtle (encode key) (encode request) with
  | Rejected => Rejected
  | Resolved signature => Resolved (hexdigest signature)
  end.

(** Reading a string of lower-case hexadecimal digit pairs back into
    bytes; used to state what the signature text determines. *)
Definition hex_value (c : ascii) : option N :=
  let code := N_of_ascii c in
  if (48 <=? code)%N && (code <=? 57)%N then Some (code - 48)%N
  else if (97 <=? code)%N && (code <=? 102)%N then Some (code - 87)%N
  else None.

Fixpoint unhex (s : string) : option (list byte) :=
  match s with
  | EmptyString => Some []
  | String c1 (String c2 s') =>
      match hex_value c1, hex_value c2, unhex s' with
      | Some high, Some low, Some bytes =>
          match Byte.of_N (16 * high + low) with
          | Some b => Some (b :: bytes)
          | None => None
          end
      | _, _, _ => None
      end
  | String _ EmptyString => None
  end.

(** A stand-in for the browser's HMAC that returns twenty fixed bytes. *)
Definition fixed_digest : list byte :=
  [x00; x0f; x10; xa5; xff; x01; x23; x45; x67; x89;
   xab; xcd; xef; x7f; x80; x3c; xc3; x5a; x9e; x42].

Definition fixed_subtle : SubtleCrypto :=
  {| sign_HMAC_SHA1 := fun key data => Resolved fixed_digest |}.

(** ** Further predicates used in the statements *)

(** A character occurs in a string. *)
Fixpoint has_char (c : ascii) (s : string) : bool :=
  match s with
  | EmptyString => false
  | String a s' => Ascii.eqb a c || has_char c s'
  end.

Definition colon : ascii := ":"%char.


(** ** Sample data: Services of a route that is not in the catalog, and a
    connection without a walking time for its origin *)


Definition no_walk : Connection :=
  {| id := 4; type := 0;
     name := "Cranbourne";
     number := "Train";
     forward_direction := {| dir_id := 4; origin := 1150; destination := 1099 |};
     reverse_direction := None;
     walking := JS.literal [(1099%N, 430)];
     duration := {| min := 747; max := 1047; avg := 751 |} |}.

(** An entry of the table that sits at the id of a slot of a catalog
    connection and carries that id and that connection's route. *)
Definition slot_of_catalog (entry : string * Service.t) : Prop :=
  Service.id (snd entry) = fst entry
  /\ exists connection index,
       JS.iget connections (Service.route_id (snd entry)) = Some connection
       /\ fst entry = idString (JS.ToString (id connection))
                               (dir_id (forward_direction connection))
                               (origin (forward_direction connection)) index.

(** The invariant of the event loop behind it: the table holds slots of
    the catalog, and every task has the default buffer and is at some
    point of the catalog's enumeration. *)
Definition orderly (w : World) : Prop :=
  Forall slot_of_catalog (services (globals w))
  /\ Forall (fun t => buffer t = default_buffer
                      /\ suffix (current t :: rest t) (JS.entries connections))
            (tasks w).

(** * Properties *)

(** ** The helpers on sample values *)

Example ToString_samples : JS.ToString 13067 = "13067" /\ JS.ToString 0 = "0".
Proof. split; reflexivity. Qed.

Example trim_sample : JS.trim "  Buses replace trains " = "Buses replace trains".
Proof. reflexivity. Qed.

Example sort_is_stable :
  JS.sort (fun a b => JS.sub (JS.Num (fst a)) (JS.Num (fst b)))
          [(3, "a"); (1, "b"); (2, "c"); (1, "d")]
  = [(1, "b"); (1, "d"); (2, "c"); (3, "a")].
Proof. reflexivity. Qed.

Example formatTimeDelta_samples :
  formatTimeDelta (JS.Num (-3723000)) = "-1:02:03"
  /\ formatTimeDelta (JS.Num 65000) = "1:05"
  /\ formatTimeDelta JS.NaN = "NaN:NaN".
Proof. repeat split; reflexivity. Qed.

Example catalog_samples :
  JS.iget connections 4 = Some cranbourne
  /\ JS.entries connections !! 0%nat = Some ("4", cranbourne)
  /\ JS.entries connections !! 1%nat = Some ("11", pakenham)
  /\ length (JS.entries connections) = 10%nat.
Proof. repeat split; reflexivity. Qed.

Example request_sample :
  departures_endpoint 0 1150 "4" +:+ "?"
    +:+ URLSearchParams_toString (JS.set (departures_params 4) "devid" "3000001")
  = "/v3/departures/route_type/0/stop/1150/route/4?direction_id=4&max_results=5&expand=Disruption&devid=3000001".
Proof. reflexivity. Qed.

Example deadlines_sample :
  let service :=
    build "4" short_hop 120 [] ∅ (departures_payload [scheduled_0800]) 0 scheduled_0800 in
  Service.get_going_by service = JS.Num (clock 7 53 0)
  /\ Service.arrive_by service = JS.Num (clock 8 17 10).
Proof. split; reflexivity. Qed.

Example healthScore_samples :
  healthScore {| run_active := true; has_estimated := true; route_active := true |} = 3%nat
  /\ healthScore {| run_active := false; has_estimated := false; route_active := false |} = 0%nat
  /\ healthScore {| run_active := true; has_estimated := false; route_active := false |} = 1%nat
  /\ healthScore {| run_active := false; has_estimated := true; route_active := false |} = 1%nat
  /\ healthScore {| run_active := false; has_estimated := false; route_active := true |} = 1%nat.
Proof. repeat split; reflexivity. Qed.

Example listed_sample :
  List.map Service.id
    (listed [("a", arriving "a" (clock 8 10 0));
             ("b", arriving "b" (clock 8 5 0));
             ("c", arriving "c" (clock 8 20 0))]
            default_buffer (clock 7 30 0))
  = ["b"; "a"; "c"].
Proof. reflexivity. Qed.

(** ** Objects *)

Section ObjFacts.
Context {V : Type}.
Implicit Types (o : JS.Obj V) (k : string) (v : V).

Lemma get_set_eq o k v : JS.get (JS.set o k v) k = Some v.
Proof.
  induction o as [|[k' v'] o IH]; simpl.
  - by rewrite String.eqb_refl.
  - destruct (String.eqb k k') eqn:E; simpl.
    + by rewrite String.eqb_refl.
    + by rewrite E.
Qed.

Lemma get_set_ne o k k' v : k <> k' -> JS.get (JS.set o k v) k' = JS.get o k'.
Proof.
  intros Hne.
  assert (Hkk : String.eqb k' k = false) by (apply String.eqb_neq; congruence).
  induction o as [|[k0 v0] o IH]; simpl.
  - by rewrite Hkk.
  - destruct (String.eqb k k0) eqn:E; simpl.
    + apply String.eqb_eq in E; subst k0. by rewrite Hkk.
    + by rewrite IH.
Qed.

Lemma keys_set o k v k' : In k' (JS.keys (JS.set o k v)) <-> k' = k \/ In k' (JS.keys o).
Proof.
  induction o as [|[k0 v0] o IH]; simpl.
  - intuition.
  - destruct (String.eqb k k0) eqn:E; simpl.
    + apply String.eqb_eq in E; subst k0. intuition.
    + rewrite IH. intuition.
Qed.

Lemma values_set o k v x :
  In x (JS.values (JS.set o k v)) -> x = v \/ In x (JS.values o).
Proof.
  induction o as [|[k0 v0] o IH]; simpl.
  - intuition.
  - destruct (String.eqb k k0); simpl; intuition.
Qed.

Lemma keys_fold_set (l : list (string * V)) o k :
  In k (JS.keys (fold_left (fun o kv => JS.set o (fst kv) (snd kv)) l o))
  <-> In k (List.map fst l) \/ In k (JS.keys o).
Proof.
  revert o. induction l as [|[k0 v0] l IH]; intros o; simpl.
  - intuition.
  - rewrite IH, keys_set. simpl. intuition.
Qed.

Lemma keys_fromEntries (l : list (string * V)) k :
  In k (JS.keys (JS.fromEntries l)) <-> In k (List.map fst l).
Proof. unfold JS.fromEntries. rewrite keys_fold_set. simpl. intuition. Qed.

Lemma get_Some_values o k v : JS.get o k = Some v -> In v (JS.values o).
Proof.
  induction o as [|[k0 v0] o IH]; simpl; [done|].
  destruct (String.eqb k k0); [intros [= ->]; auto | auto].
Qed.
End ObjFacts.

(** ** Decimal strings and composite ids *)

Lemma string_of_uint_no_dash d : has_dash (NilEmpty.string_of_uint d) = false.
Proof. induction d; simpl; auto. Qed.

Lemma ToString_no_dash n : has_dash (JS.ToString n) = false.
Proof. apply string_of_uint_no_dash. Qed.

Lemma ToString_inj n m : JS.ToString n = JS.ToString m -> n = m.
Proof.
  unfold JS.ToString. intros H.
  apply DecimalN.Unsigned.to_uint_inj.
  assert (Some (N.to_uint n) = Some (N.to_uint m)) as [= E]; [|exact E].
  by rewrite <- !NilEmpty.usu, H.
Qed.

(** A dash-free prefix in front of a dash is determined by the whole
    string. *)
Lemma dash_prefix_inj a b x y :
  has_dash a = false -> has_dash b = false ->
  a +:+ String dash x = b +:+ String dash y -> a = b /\ x = y.
Proof.
  revert b. induction a as [|c a IH]; intros [|c' b] Ha Hb; simpl in *.
  - intros [= ->]. done.
  - intros [= <- _]. by rewrite Ascii.eqb_refl in Hb.
  - intros [= -> _]. by rewrite Ascii.eqb_refl in Ha.
  - apply orb_false_iff in Ha as [_ Ha]. apply orb_false_iff in Hb as [_ Hb].
    intros [= -> E]. destruct (IH b Ha Hb E) as [-> ->]. done.
Qed.

Lemma idString_eq routeId d s i :
  idString routeId d s i
  = routeId +:+ String dash (JS.ToString d +:+ String dash
      (JS.ToString s +:+ String dash (JS.ToString (N.of_nat i)))).
Proof. reflexivity. Qed.

Lemma idString_inj r1 d1 s1 i1 r2 d2 s2 i2 :
  has_dash r1 = false -> has_dash r2 = false ->
  idString r1 d1 s1 i1 = idString r2 d2 s2 i2 ->
  r1 = r2 /\ d1 = d2 /\ s1 = s2 /\ i1 = i2.
Proof.
  intros H1 H2. rewrite !idString_eq. intros E.
  apply dash_prefix_inj in E as [-> E]; [|done..].
  apply dash_prefix_inj in E as [Ed E]; [|apply ToString_no_dash..].
  apply dash_prefix_inj in E as [Es E]; [|apply ToString_no_dash..].
  apply ToString_inj in Ed, Es, E. apply Nat2N.inj in E. done.
Qed.

Lemma idString_index_inj r d s i j : idString r d s i = idString r d s j -> i = j.
Proof.
  rewrite !idString_eq. intros E.
  apply (inj (String.app r)) in E. injection E as E.
  apply dash_prefix_inj in E as [_ E]; [|apply ToString_no_dash..].
  apply dash_prefix_inj in E as [_ E]; [|apply ToString_no_dash..].
  apply ToString_inj in E. by apply Nat2N.inj in E.
Qed.

(** ** One iteration of checkRoutes *)

Lemma in_entries_from {A} (ds : list A) n i d :
  In (i, d) (combine (seq n (length ds)) ds) <-> (n <= i)%nat /\ ds !! (i - n)%nat = Some d.
Proof.
  revert n. induction ds as [|x ds IH]; intros n; simpl.
  - split; [done | intros [_ [=]]].
  - rewrite IH. split.
    + intros [[= -> ->] | [Hle Hd]].
      * split; [lia|]. by rewrite Nat.sub_diag.
      * split; [lia|]. by replace (i - n)%nat with (S (i - S n)) by lia.
    + intros [Hle Hd]. destruct (decide (i = n)) as [->|Hne].
      * rewrite Nat.sub_diag in Hd. injection Hd as ->. by left.
      * right. split; [lia|].
        by replace (i - n)%nat with (S (i - S n)) in Hd by lia.
Qed.

Lemma in_array_entries {A} (ds : list A) i d :
  In (i, d) (array_entries ds) <-> ds !! i = Some d.
Proof.
  unfold array_entries. rewrite in_entries_from, Nat.sub_0_r.
  split; [by intros [_ ?] | split; [lia | done]].
Qed.

Lemma fst_entries_from {A} (ds : list A) n :
  List.map fst (combine (seq n (length ds)) ds) = seq n (length ds).
Proof. revert n. induction ds as [|x ds IH]; intros n; simpl; [done | by rewrite IH]. Qed.

Lemma array_entries_index {A} (ds : list A) e :
  In e (array_entries ds) -> (fst e < length ds)%nat.
Proof.
  destruct e as [i d]. rewrite in_array_entries. simpl. apply lookup_lt_Some.
Qed.

Section WriteLoop.
Variables (routeId : string) (connection : Connection) (buffer : Z).
Variables (activeRuns : JS.Obj Run.t) (everActive : gset string) (departures : Json.t).

Let W := write routeId connection buffer activeRuns everActive departures.
Let slot := idString routeId (dir_id (forward_direction connection))
                     (origin (forward_direction connection)).
Let B := build routeId connection buffer activeRuns everActive departures.

Lemma write_loop_frame (es : list (nat * Departure.t)) sv k :
  (forall e, In e es -> k <> slot (fst e)) ->
  JS.get (fold_left W es sv) k = JS.get sv k.
Proof.
  revert sv. induction es as [|e es IH]; intros sv Hk; simpl; [done|].
  rewrite IH by (intros e' He'; apply Hk; by right).
  unfold W, write. apply get_set_ne. intros E. by apply (Hk e); [left|].
Qed.

Lemma write_loop_slot (es : list (nat * Departure.t)) sv i d :
  NoDup (List.map fst es) -> In (i, d) es ->
  JS.get (fold_left W es sv) (slot i) = Some (B i d).
Proof.
  revert sv. induction es as [|e es IH]; intros sv Hnd Hin; simpl in *; [done|].
  apply NoDup_cons in Hnd as [Hfresh Hnd]. destruct Hin as [->|Hin].
  - rewrite write_loop_frame.
    + unfold W, write. simpl. apply get_set_eq.
    + intros e' He' E. apply idString_index_inj in E. simpl in *.
      apply Hfresh. rewrite list_elem_of_In, E. by apply in_map.
  - by apply IH.
Qed.

Lemma write_loop_values (es : list (nat * Departure.t)) sv x :
  In x (JS.values (fold_left W es sv)) ->
  In x (JS.values sv) \/ exists e, In e es /\ x = B (fst e) (snd e).
Proof.
  revert sv. induction es as [|e es IH]; intros sv; simpl; [by left|].
  intros Hx. apply IH in Hx as [Hx | (e' & He' & ->)].
  - unfold W, write in Hx. apply values_set in Hx as [-> | Hx]; [|by left].
    right. exists e. split; [by left | done].
  - right. exists e'. split; [by right | done].
Qed.

Lemma write_loop_keys (es : list (nat * Departure.t)) sv k :
  In k (JS.keys (fold_left W es sv)) <->
  In k (JS.keys sv) \/ exists e, In e es /\ k = slot (fst e).
Proof.
  revert sv. induction es as [|e es IH]; intros sv; simpl.
  - split; [by left | intros [?|(? & [] & _)]; done].
  - rewrite IH. unfold W, write. rewrite keys_set. split.
    + intros [[-> | Hk] | (e' & He' & ->)]; [right; exists e | by left | right; exists e'];
        (split; [by (left + right) | done]).
    + intros [Hk | (e' & [<- | He'] & ->)];
        [left; by right | left; by left | right; exists e'; done].
Qed.
End WriteLoop.

(** ** What one poll does to the table *)

Lemma merge_services g routeId connection buffer runs departures :
  services (merge g routeId connection buffer runs departures)
  = match Json.departures departures with
    | Some ds =>
        fold_left
          (write routeId connection buffer
                 (activeRuns_of runs (dir_id (forward_direction connection)))
                 (everActive (merge g routeId connection buffer runs departures))
                 departures)
          (array_entries ds) (services g)
    | None => services g
    end.
Proof. reflexivity. Qed.

Lemma merge_slot g routeId connection buffer runs departures ds index departure :
  Json.departures departures = Some ds -> ds !! index = Some departure ->
  JS.get (services (merge g routeId connection buffer runs departures))
         (idString routeId (dir_id (forward_direction connection))
                   (origin (forward_direction connection)) index)
  = Some (build routeId connection buffer
                (activeRuns_of runs (dir_id (forward_direction connection)))
                (everActive (merge g routeId connection buffer runs departures))
                departures index departure).
Proof.
  intros Hds Hd. rewrite merge_services, Hds.
  apply write_loop_slot.
  - unfold array_entries. rewrite fst_entries_from. apply NoDup_seq.
  - by apply in_array_entries.
Qed.

Lemma merge_frame g routeId connection buffer runs departures k :
  (forall index,
      (index < length (default [] (Json.departures departures)))%nat ->
      k <> idString routeId (dir_id (forward_direction connection))
                    (origin (forward_direction connection)) index) ->
  JS.get (services (merge g routeId connection buffer runs departures)) k
  = JS.get (services g) k.
Proof.
  intros Hk. rewrite merge_services.
  destruct (Json.departures departures) as [ds|]; [|done].
  apply write_loop_frame. intros e He. apply Hk. by apply array_entries_index.
Qed.

(** C1, as the code has it: a poll assigns the slots of the departures it
    returned and leaves every other property of the table as it was, the
    higher slots of the same connection included. *)
Theorem poll_overwrites_returned_slots
    g routeId connection buffer runs departures :
  let g' := merge g routeId connection buffer runs departures in
  let ds := default [] (Json.departures departures) in
  let slot := idString routeId (dir_id (forward_direction connection))
                       (origin (forward_direction connection)) in
  (forall index departure,
      ds !! index = Some departure ->
      JS.get (services g') (slot index)
      = Some (build routeId connection buffer
                    (activeRuns_of runs (dir_id (forward_direction connection)))
                    (everActive g') departures index departure))
  /\ (forall index,
        (length ds <= index)%nat ->
        JS.get (services g') (slot index) = JS.get (services g) (slot index))
  /\ (forall k,
        (forall index, (index < length ds)%nat -> k <> slot index) ->
        JS.get (services g') k = JS.get (services g) k).
Proof.
  intros g' ds slot. split; [|split].
  - intros index departure Hd. subst ds.
    destruct (Json.departures departures) as [ds|] eqn:Hds; [|done].
    by eapply merge_slot.
  - intros index Hle. apply merge_frame. intros j Hj E.
    apply idString_index_inj in E. fold ds in Hj. lia.
  - intros k Hk. by apply merge_frame.
Qed.

Lemma poll_overwrites_returned_slots_witness :
  JS.get (services (merge after_first_poll "4" cranbourne default_buffer
                          (runs_payload []) (departures_payload [train_0830])))
         (idString "4" 4 1150 1)
  = JS.get (services after_first_poll) (idString "4" 4 1150 1).
Proof.
  destruct (poll_overwrites_returned_slots after_first_poll "4" cranbourne default_buffer
              (runs_payload []) (departures_payload [train_0830])) as (_ & Hkept & _).
  apply Hkept. simpl. lia.
Defined.

Lemma stale_slot_survives :
  ~ replaces_slot_range after_first_poll "4" cranbourne default_buffer
      (runs_payload []) (departures_payload [train_0830]).
Proof.
  intros H. specialize (H 1%nat). unfold maxResults in H.
  specialize (H ltac:(lia)). vm_compute in H. discriminate H.
Qed.

Example stale_slot_contents :
  JS.get (services (merge after_first_poll "4" cranbourne default_buffer
                          (runs_payload []) (departures_payload [train_0830])))
         "4-4-1150-1"
  = Some (build "4" cranbourne default_buffer
                (activeRuns_of first_poll_runs 4)
                {["955701"]} first_poll_departures 1 train_0830).
Proof. vm_compute. reflexivity. Qed.

(** ** Route ids of the catalog *)

Lemma entries_key {V} (o : JS.IntObj V) r c :
  In (r, c) (JS.entries o) -> exists k, r = JS.ToString k.
Proof.
  unfold JS.entries. rewrite in_map_iff. intros ([k v] & [= <- <-] & _). by exists k.
Qed.

Lemma entries_no_dash {V} (o : JS.IntObj V) i r c :
  JS.entries o !! i = Some (r, c) -> has_dash r = false.
Proof.
  intros H. apply list_elem_of_lookup_2, list_elem_of_In, entries_key in H as [k ->].
  apply ToString_no_dash.
Qed.

Lemma route_ids_distinct : NoDup (List.map fst (JS.entries connections)).
Proof. apply (bool_decide_unpack _). vm_compute. exact I. Qed.

Lemma catalog_order :
  List.map fst (JS.entries connections)
  = ["4"; "11"; "8922"; "8924"; "8934"; "12753"; "13067"; "13271"; "13820"; "14930"].
Proof. vm_compute. reflexivity. Qed.

(** C8: the ids that a connection's iteration writes start with its route
    id; two entries of the catalog have different route ids; so the
    iteration for one leaves every id of the other as it was. *)
Theorem refresh_leaves_other_connections (i j : nat) r1 c1 r2 c2 :
  i <> j ->
  JS.entries connections !! i = Some (r1, c1) ->
  JS.entries connections !! j = Some (r2, c2) ->
  r1 <> r2
  /\ forall g buffer runs departures,
      let g' := merge g r1 c1 buffer runs departures in
      (forall k, In k (JS.keys (services g')) ->
                 In k (JS.keys (services g)) \/ exists tail, k = r1 +:+ String dash tail)
      /\ (forall direction stop index,
            JS.get (services g') (idString r2 direction stop index)
            = JS.get (services g) (idString r2 direction stop index)).
Proof.
  intros Hij Hi Hj.
  assert (Hne : r1 <> r2).
  { intros ->. apply Hij.
    eapply (NoDup_lookup (List.map fst (JS.entries connections))).
    - apply route_ids_distinct.
    - change (List.map fst ?l) with (fst <$> l). by rewrite list_lookup_fmap, Hi.
    - change (List.map fst ?l) with (fst <$> l). by rewrite list_lookup_fmap, Hj. }
  split; [done|]. intros g buffer runs departures g'. split.
  - intros k. subst g'. rewrite merge_services.
    destruct (Json.departures departures) as [ds|]; [|by left].
    rewrite write_loop_keys. intros [Hk | (e & _ & ->)]; [by left|].
    right. rewrite idString_eq. eauto.
  - intros direction stop index. apply merge_frame. intros idx _ E.
    apply idString_inj in E as [E _]; [congruence | by eapply entries_no_dash..].
Qed.

Lemma refresh_leaves_other_connections_witness :
  "4" <> "11"
  /\ JS.get (services (merge after_both_polls "4" cranbourne default_buffer
                             (runs_payload []) (departures_payload [train_0830])))
            (idString "11" 10 1150 0)
     = JS.get (services after_both_polls) (idString "11" 10 1150 0).
Proof.
  destruct (refresh_leaves_other_connections 0 1 "4" cranbourne "11" pakenham)
    as [Hne Hframe]; [lia | reflexivity | reflexivity |].
  split; [exact Hne|]. apply Hframe.
Defined.

(** ** Health flags *)

Lemma keys_activeRuns runs directionId r :
  In r (JS.keys (activeRuns_of runs directionId)) <->
  exists rs run, Json.runs runs = Some rs /\ In run rs
                 /\ is_active directionId run = true /\ Run.run_ref run = r.
Proof.
  unfold activeRuns_of. destruct (Json.runs runs) as [rs|].
  - rewrite keys_fromEntries, map_map, in_map_iff. simpl. split.
    + intros (run & <- & Hrun). apply filter_In in Hrun as [Hin Hact]. eauto 6.
    + intros (rs' & run & [= <-] & Hin & Hact & <-).
      exists run. split; [done|]. apply filter_In. done.
  - simpl. split; [done | intros (? & ? & [=] & _)].
Qed.

Lemma is_active_spec directionId run :
  is_active directionId run = true <->
  Run.vehicle_position run <> None /\ Run.direction_id run = directionId.
Proof.
  unfold is_active. rewrite andb_true_iff, N.eqb_eq.
  destruct (Run.vehicle_position run); split; intros [? ?]; split; done.
Qed.

Lemma elem_of_observe runs activeRuns E r :
  r ∈ observe runs activeRuns E <->
  (Json.runs runs <> None /\ In r (JS.keys activeRuns)) \/ r ∈ E.
Proof.
  unfold observe. destruct (Json.runs runs).
  - rewrite elem_of_union, elem_of_list_to_set, list_elem_of_In. intuition congruence.
  - intuition congruence.
Qed.

Lemma in_built_by_merge g routeId connection buffer runs departures s :
  In s (built_by_merge g routeId connection buffer runs departures) <->
  exists ds index departure,
    Json.departures departures = Some ds /\ ds !! index = Some departure
    /\ s = build routeId connection buffer
                 (activeRuns_of runs (dir_id (forward_direction connection)))
                 (everActive (merge g routeId connection buffer runs departures))
                 departures index departure.
Proof.
  unfold built_by_merge. destruct (Json.departures departures) as [ds|].
  - rewrite in_map_iff. split.
    + intros ([index departure] & <- & Hin). apply in_array_entries in Hin. eauto 6.
    + intros (ds' & index & departure & [= <-] & Hd & ->).
      exists (index, departure). split; [done | by apply in_array_entries].
  - split; [done | intros (? & ? & ? & [=] & _)].
Qed.

(** C3, as the code has it: the flag is membership in [everActive] after
    this poll's runs have been added to it, that is, the run is active in
    this poll or was in [everActive] before it. *)
Theorem run_active_iff_ever_active g routeId connection buffer runs departures s :
  In s (built_by_merge g routeId connection buffer runs departures) ->
  let directionId := dir_id (forward_direction connection) in
  let g' := merge g routeId connection buffer runs departures in
  (run_active (Service.health s) = true <-> Service.run_ref s ∈ everActive g')
  /\ (Service.run_ref s ∈ everActive g' <->
      (Json.runs runs <> None
       /\ In (Service.run_ref s) (JS.keys (activeRuns_of runs directionId)))
      \/ Service.run_ref s ∈ everActive g)
  /\ (In (Service.run_ref s) (JS.keys (activeRuns_of runs directionId)) <->
      exists rs run, Json.runs runs = Some rs /\ In run rs
                     /\ Run.vehicle_position run <> None
                     /\ Run.direction_id run = directionId
                     /\ Run.run_ref run = Service.run_ref s).
Proof.
  intros Hs directionId g'.
  apply in_built_by_merge in Hs as (ds & index & departure & _ & _ & ->).
  split; [|split].
  - simpl. apply bool_decide_eq_true.
  - apply elem_of_observe.
  - rewrite keys_activeRuns. split.
    + intros (rs & run & Hrs & Hin & Hact & Href).
      apply is_active_spec in Hact as [Hpos Hdir]. exists rs, run. done.
    + intros (rs & run & Hrs & Hin & Hpos & Hdir & Href).
      exists rs, run. by rewrite is_active_spec.
Qed.

Lemma run_active_iff_ever_active_witness :
  run_active (Service.health second_poll_service) = true
  <-> Service.run_ref second_poll_service ∈ everActive after_second_poll.
Proof.
  apply (run_active_iff_ever_active after_first_poll "4" cranbourne default_buffer
           second_poll_runs second_poll_departures second_poll_service).
  simpl. left. reflexivity.
Defined.

Lemma run_active_without_position_now :
  JS.get (services after_second_poll) "4-4-1150-0" = Some second_poll_service
  /\ Service.run_ref second_poll_service = "955701"
  /\ ~ (run_active (Service.health second_poll_service) = true
        <-> In "955701" (JS.keys (activeRuns_of second_poll_runs 4))).
Proof.
  split; [vm_compute; reflexivity | split; [reflexivity|]].
  intros [Hto _]. apply Hto. vm_compute. reflexivity.
Qed.

(** ** Deadlines *)

(** C5: with the walking times of the forward origin and destination in
    the connection's table, the two deadlines are the departure instant
    (the estimate when there is one, else the schedule) moved by the
    walking, buffer and average trip times, all in milliseconds. *)
Theorem deadlines_from_departure
    routeId connection buffer activeRuns everActive departures index departure
    walkBeforeSeconds walkAfterSeconds :
  JS.iget (walking connection) (origin (forward_direction connection))
  = Some walkBeforeSeconds ->
  JS.iget (walking connection) (destination (forward_direction connection))
  = Some walkAfterSeconds ->
  let service :=
    build routeId connection buffer activeRuns everActive departures index departure in
  let tripAverageSeconds := avg (duration connection) in
  match Departure.estimated_departure_utc departure with
  | Some estimated =>
      Service.get_going_by service
      = JS.Num (estimated - walkBeforeSeconds * 1000 - buffer * 1000)
      /\ Service.arrive_by service
         = JS.Num (estimated + tripAverageSeconds * 1000 + walkAfterSeconds * 1000)
  | None =>
      Service.get_going_by service
      = JS.Num (Departure.scheduled_departure_utc departure
                - walkBeforeSeconds * 1000 - buffer * 1000)
      /\ Service.arrive_by service
         = JS.Num (Departure.scheduled_departure_utc departure
                   + tripAverageSeconds * 1000 + walkAfterSeconds * 1000)
  end.
Proof.
  intros Hbefore Hafter. simpl. unfold departureTime. rewrite Hbefore, Hafter.
  destruct (Departure.estimated_departure_utc departure); simpl; done.
Qed.

Lemma deadlines_from_departure_witness :
  Service.get_going_by second_poll_service = JS.Num (1704096000000 - 821 * 1000 - 120 * 1000)
  /\ Service.arrive_by second_poll_service = JS.Num (1704096000000 + 751 * 1000 + 430 * 1000).
Proof.
  apply (deadlines_from_departure "4" cranbourne default_buffer
           (activeRuns_of second_poll_runs 4) (everActive after_second_poll)
           second_poll_departures 0 train_0800 821 430); reflexivity.
Defined.

(** ** The health score *)

Lemma healthScore_count h :
  healthScore h
  = ((if run_active h then 1 else 0) + (if has_estimated h then 1 else 0)
     + (if route_active h then 1 else 0))%nat.
Proof. reflexivity. Qed.

(** C10: the score is the number of true flags, at most 3, and the legend
    has a symbol at that index, which is what the row shows. *)
Theorem health_symbol_defined (service : Service.t) :
  let score := healthScore (Service.health service) in
  (score <= 3)%nat
  /\ (exists symbol, nth_error legend score = Some symbol)
  /\ forall now row, render now service = Resolved row ->
       exists symbol, healthCell row = Some symbol /\ nth_error legend score = Some symbol.
Proof.
  intros score.
  assert (Hle : (score <= 3)%nat).
  { subst score. rewrite healthScore_count.
    destruct (run_active _), (has_estimated _), (route_active _); simpl; lia. }
  assert (Hsym : exists symbol, nth_error legend score = Some symbol).
  { destruct (nth_error legend score) eqn:E; [eauto|].
    apply nth_error_None in E. simpl in E. lia. }
  split; [done | split; [done|]].
  intros now row. unfold render.
  destruct (JS.iget connections (Service.route_id service)); [|done].
  intros [= <-]. simpl. destruct Hsym as [symbol Hsym]. exists symbol. done.
Qed.

Lemma health_symbol_defined_witness :
  exists row, render 1704095000000 second_poll_service = Resolved row
              /\ healthCell row = Some "🔴".
Proof.
  eexists. split; [reflexivity|].
  destruct (health_symbol_defined second_poll_service) as (_ & _ & Hrow).
  destruct (Hrow 1704095000000 _ eq_refl) as (symbol & Hcell & Hsym).
  rewrite Hcell, <- Hsym. reflexivity.
Defined.

(** ** everActive only grows *)

Lemma observe_grows runs activeRuns (E : gset string) : E ⊆ observe runs activeRuns E.
Proof. unfold observe. destruct (Json.runs runs); set_solver. Qed.

Lemma merge_grows g routeId connection buffer runs departures :
  everActive g ⊆ everActive (merge g routeId connection buffer runs departures).
Proof. apply observe_grows. Qed.

Lemma merge_observes g routeId connection buffer runs departures rs run :
  Json.runs runs = Some rs -> In run rs ->
  Run.vehicle_position run <> None ->
  Run.direction_id run = dir_id (forward_direction connection) ->
  Run.run_ref run ∈ everActive (merge g routeId connection buffer runs departures).
Proof.
  intros Hrs Hin Hpos Hdir. simpl. apply elem_of_observe. left.
  split; [congruence|]. apply keys_activeRuns.
  exists rs, run. by rewrite is_active_spec.
Qed.

Lemma resume_grows g t r :
  everActive g ⊆ everActive (fst (resume g t r)).
Proof.
  unfold resume. destruct r as [payload|]; [|done].
  destruct (waiting t); simpl; [done | apply observe_grows].
Qed.

Lemma step_globals w e w' :
  step w e = Some w' ->
  globals w' = globals w
  \/ exists i t r, e = Settle i r /\ tasks w !! i = Some t
                   /\ globals w' = fst (resume (globals w) t r).
Proof.
  destruct e as [|now|i r]; simpl.
  - intros [= <-]. left. unfold launch. by destruct (enter _ _).
  - intros [= <-]. by left.
  - destruct (tasks w !! i) as [t|] eqn:Ht; [|done].
    destruct (resume (globals w) t r) as [g outcome] eqn:Hres.
    intros [= <-]. right. exists i, t, r. rewrite Hres.
    by destruct outcome.
Qed.

Lemma step_grows w e w' :
  step w e = Some w' -> everActive (globals w) ⊆ everActive (globals w').
Proof.
  intros H. apply step_globals in H as [-> | (i & t & r & _ & _ & ->)]; [done|].
  apply resume_grows.
Qed.

Lemma run_grows w events w' :
  run w events = Some w' -> everActive (globals w) ⊆ everActive (globals w').
Proof.
  revert w. induction events as [|e events IH]; intros w; simpl.
  - by intros [= <-].
  - destruct (step w e) as [w1|] eqn:Hstep; [|done].
    intros Hrun. etrans; [by eapply step_grows | by apply IH].
Qed.

Lemma checkRoutes_loop_grows b ptv buffer entries g :
  everActive g ⊆ everActive (globals_of (checkRoutes_loop b ptv buffer entries g)).
Proof.
  revert g. induction entries as [|[routeId connection] entries IH]; intros g; simpl; [done|].
  destruct (call_runs _ _ _ _); [|done].
  destruct (call_departures _ _ _ _); [|done].
  etrans; [|apply IH]. apply merge_grows.
Qed.

(** C7: whatever callbacks run, in whatever order, a run identifier that
    is in [everActive] stays in it, and the identifier of a run that a
    poll reports with a vehicle position in the forward direction is in
    it from that poll on; no event takes one out. *)
Theorem everActive_never_shrinks (w : World) (events : list Event) (w' : World) :
  run w events = Some w' ->
  (forall run_ref, run_ref ∈ everActive (globals w) -> run_ref ∈ everActive (globals w'))
  /\ (forall w0 i t runs payload rs seen,
        tasks w0 !! i = Some t ->
        waiting t = AwaitDepartures runs ->
        step w0 (Settle i (Resolved payload)) = Some w ->
        Json.runs runs = Some rs ->
        In seen rs ->
        Run.vehicle_position seen <> None ->
        Run.direction_id seen = dir_id (forward_direction (snd (current t))) ->
        Run.run_ref seen ∈ everActive (globals w')).
Proof.
  intros Hrun. pose proof (run_grows _ _ _ Hrun) as Hgrows. split.
  - intros run_ref Hin. by apply Hgrows.
  - intros w0 i t runs payload rs seen Ht Hwait Hstep Hrs Hseen Hpos Hdir.
    apply Hgrows. simpl in Hstep. rewrite Ht in Hstep. unfold resume in Hstep.
    rewrite Hwait in Hstep.
    assert (globals w = merge (globals w0) (fst (current t)) (snd (current t))
                              (buffer t) runs payload) as ->.
    { destruct (enter (rest t) (buffer t)); by injection Hstep as <-. }
    by eapply merge_observes.
Qed.

Lemma everActive_never_shrinks_witness :
  exists w', run quiet_world (second_refresh ++ [second_poll_settles]) = Some w'
             /\ "955701" ∈ everActive (globals w').
Proof.
  assert (Hrun : run quiet_world (second_refresh ++ [second_poll_settles])
                 = Some (after quiet_world (second_refresh ++ [second_poll_settles])))
    by (vm_compute; reflexivity).
  eexists. split; [exact Hrun|].
  apply (everActive_never_shrinks _ _ _ Hrun).
  apply (bool_decide_unpack _). vm_compute. exact I.
Defined.

(** ** run_active is evaluated against everActive *)

Lemma built_by_run_active w e w' s :
  step w e = Some w' -> In s (built_by w e) ->
  run_active (Service.health s) = bool_decide (Service.run_ref s ∈ everActive (globals w')).
Proof.
  destruct e as [| |i [payload|]]; simpl; try done.
  destruct (tasks w !! i) as [t|]; [|done].
  unfold resume. destruct (waiting t) as [|runs]; [done|].
  intros Hstep Hs.
  apply in_built_by_merge in Hs as (ds & index & departure & _ & _ & ->).
  assert (globals w' = merge (globals w) (fst (current t)) (snd (current t))
                             (buffer t) runs payload) as ->.
  { destruct (enter (rest t) (buffer t)); by injection Hstep as <-. }
  reflexivity.
Qed.

(** C9: a Service built for a run while the run is in [everActive] has
    [run_active] set, and so has every Service built for that run by any
    later callback, whatever happened in between. *)
Theorem run_active_sticks
    (w0 : World) (e1 : Event) (w1 : World) (events : list Event)
    (w2 : World) (e2 : Event) (w3 : World) (s1 s2 : Service.t) :
  step w0 e1 = Some w1 ->
  run w1 events = Some w2 ->
  step w2 e2 = Some w3 ->
  In s1 (built_by w0 e1) ->
  In s2 (built_by w2 e2) ->
  Service.run_ref s2 = Service.run_ref s1 ->
  run_active (Service.health s1) = true ->
  run_active (Service.health s2) = true.
Proof.
  intros Hstep1 Hrun Hstep2 Hs1 Hs2 Href Hactive.
  rewrite (built_by_run_active _ _ _ _ Hstep1 Hs1) in Hactive.
  rewrite (built_by_run_active _ _ _ _ Hstep2 Hs2), Href.
  apply bool_decide_eq_true in Hactive. apply bool_decide_eq_true.
  apply (step_grows _ _ _ Hstep2). by apply (run_grows _ _ _ Hrun).
Qed.

Lemma run_active_sticks_witness :
  run_active (Service.health first_poll_service) = true
  /\ run_active (Service.health second_poll_service) = true.
Proof.
  assert (H1 : run_active (Service.health first_poll_service) = true) by reflexivity.
  split; [exact H1|].
  apply (run_active_sticks
           first_poll_awaited first_poll_settles
           (after first_poll_awaited [first_poll_settles])
           overlapping_refresh
           (after first_poll_awaited (first_poll_settles :: overlapping_refresh))
           overlapped_poll_settles
           (after first_poll_awaited
                  (first_poll_settles :: overlapping_refresh ++ [overlapped_poll_settles]))
           first_poll_service second_poll_service).
  - vm_compute. reflexivity.
  - vm_compute. reflexivity.
  - vm_compute. reflexivity.
  - vm_compute. left. reflexivity.
  - vm_compute. left. reflexivity.
  - reflexivity.
  - exact H1.
Defined.

(** ** Overlapping refreshes *)

Lemma catalog_not_empty :
  exists entry rest, JS.entries connections = entry :: rest.
Proof. vm_compute. eauto. Qed.

Lemma launch_tasks w :
  exists t, tasks (launch w) = (tasks w ++ [t])%list
            /\ globals (launch w) = globals w
            /\ waiting t = AwaitRuns /\ buffer t = default_buffer
            /\ current t :: rest t = JS.entries connections.
Proof.
  unfold launch. destruct catalog_not_empty as (entry & tl & ->). simpl.
  eexists. repeat split.
Qed.

(** C6, as the code has it: the refresh timer starts a new call of
    [checkRoutes] in every state, whatever is in flight, and the calls in
    flight are one more after each firing: [n] firings before any network
    call settles leave [n + 1] refreshes in flight. *)
Theorem refresh_timer_always_launches :
  (forall w, exists w',
      step w Refresh = Some w'
      /\ length (tasks w') = S (length (tasks w))
      /\ globals w' = globals w)
  /\ (forall n, exists w,
        run boot (repeat Refresh n) = Some w /\ length (tasks w) = S n).
Proof.
  assert (Hstep : forall w, exists w',
             step w Refresh = Some w'
             /\ length (tasks w') = S (length (tasks w))
             /\ globals w' = globals w).
  { intros w. exists (launch w). split; [done|].
    destruct (launch_tasks w) as (t & -> & -> & _). rewrite length_app. simpl.
    split; [lia | done]. }
  split; [exact Hstep|].
  assert (Hrun : forall n w, exists w',
             run w (repeat Refresh n) = Some w'
             /\ length (tasks w') = (n + length (tasks w))%nat).
  { induction n as [|n IH]; intros w; simpl.
    - by exists w.
    - destruct (IH (launch w)) as (w' & Hrun & Hlen). exists w'. split; [done|].
      rewrite Hlen. destruct (launch_tasks w) as (t & -> & _).
      rewrite length_app. simpl. lia. }
  intros n. destruct (Hrun n boot) as (w & Hw & Hlen). exists w. split; [done|].
  rewrite Hlen. unfold boot. destruct (launch_tasks
    {| globals := {| services := []; everActive := ∅ |}; tasks := []; unhandled := 0 |})
    as (t & -> & _). simpl. lia.
Qed.

Lemma second_refresh_overlaps :
  exists w, run boot [Refresh] = Some w /\ ~ one_refresh_at_a_time w.
Proof.
  eexists. split; [reflexivity|].
  unfold one_refresh_at_a_time. vm_compute. intros H. inversion H as [|m H1]. inversion H1.
Qed.

(** ** A refresh on its own, and a failing call *)

(** Driving the task of a call of [checkRoutes] with the browser's answers
    and no other callback in between is the loop of lines 21-80. *)
Lemma drive_enter b ptv buf entries g :
  match enter entries buf with
  | Suspended t =>
      drive (2 * length entries) b ptv g t = Some (checkRoutes_loop b ptv buf entries g)
  | Returned => checkRoutes_loop b ptv buf entries g = Fulfilled g
  | Threw => False
  end.
Proof.
  revert g. induction entries as [|[routeId connection] entries IH]; intros g; [done|].
  cbn [enter]. replace (2 * length ((routeId, connection) :: entries))%nat
    with (S (S (2 * length entries))) by (simpl; lia).
  cbn [drive pending resume waiting current rest buffer fst snd checkRoutes_loop].
  destruct (call_runs b ptv routeId connection) as [runs|]; [|done].
  cbn [drive pending resume waiting current rest buffer fst snd].
  destruct (call_departures b ptv routeId connection) as [departures|]; [|done].
  specialize (IH (merge g routeId connection buf runs departures)).
  unfold resume. cbn [waiting current rest buffer fst snd].
  destruct (enter entries buf) as [t| |]; [done | by rewrite IH | done].
Qed.

Lemma checkRoutes_loop_app b ptv buffer before after g g1 :
  checkRoutes_loop b ptv buffer before g = Fulfilled g1 ->
  checkRoutes_loop b ptv buffer (before ++ after)%list g
  = checkRoutes_loop b ptv buffer after g1.
Proof.
  revert g. induction before as [|[routeId connection] before IH]; intros g; simpl.
  - by intros [= ->].
  - destruct (call_runs _ _ _ _); [|done].
    destruct (call_departures _ _ _ _); [|done]. apply IH.
Qed.

(** Ids of a route that is not among the entries visited are not
    touched. *)
Lemma checkRoutes_loop_frame b ptv buffer entries g r direction stop index :
  has_dash r = false ->
  (forall e, In e entries -> has_dash (fst e) = false /\ fst e <> r) ->
  JS.get (services (globals_of (checkRoutes_loop b ptv buffer entries g)))
         (idString r direction stop index)
  = JS.get (services g) (idString r direction stop index).
Proof.
  intros Hr. revert g.
  induction entries as [|[routeId connection] entries IH]; intros g Hentries; simpl; [done|].
  destruct (call_runs _ _ _ _); [|done].
  destruct (call_departures _ _ _ _); [|done].
  rewrite IH by (intros e He; apply Hentries; by right).
  apply merge_frame. intros idx _ E.
  destruct (Hentries (routeId, connection)) as [Hdash Hne]; [by left|].
  apply idString_inj in E as [E _]; [|done..]. simpl in Hne. congruence.
Qed.

(** C2, as the code has it: a call that is rejected ends the refresh on
    the spot.  The connections before the failing one have been merged;
    the failing one and all those after it are not visited, so their ids
    hold what they held before the refresh; and the promise of
    [checkRoutes] is rejected, with nothing to handle it. *)
Theorem failed_call_ends_the_refresh
    b ptv buffer g g1 before routeId connection later :
  JS.entries connections = (before ++ (routeId, connection) :: later)%list ->
  checkRoutes_loop b ptv buffer before g = Fulfilled g1 ->
  call_runs b ptv routeId connection = Rejected
  \/ call_departures b ptv routeId connection = Rejected ->
  checkRoutes b ptv g buffer = Failed g1
  /\ everActive g ⊆ everActive g1
  /\ forall r c direction stop index,
       In (r, c) ((routeId, connection) :: later) ->
       JS.get (services g1) (idString r direction stop index)
       = JS.get (services g) (idString r direction stop index).
Proof.
  intros Hcat Hbefore Hfail. split; [|split].
  - unfold checkRoutes. rewrite Hcat, (checkRoutes_loop_app _ _ _ _ _ _ _ Hbefore). simpl.
    destruct Hfail as [-> | Hfail]; [done|].
    destruct (call_runs _ _ _ _); [by rewrite Hfail | done].
  - pose proof (checkRoutes_loop_grows b ptv buffer before g) as H.
    by rewrite Hbefore in H.
  - intros r c direction stop index Hin.
    pose proof route_ids_distinct as Hnd. rewrite Hcat, map_app in Hnd.
    apply NoDup_app in Hnd as (_ & Hdisj & _).
    assert (Hdash : forall e, In e (JS.entries connections) -> has_dash (fst e) = false).
    { intros [r' c'] He. apply entries_key in He as [k ->]. apply ToString_no_dash. }
    pose proof (checkRoutes_loop_frame b ptv buffer before g r direction stop index) as H.
    rewrite Hbefore in H. apply H.
    + apply (Hdash (r, c)). rewrite Hcat. apply in_app_iff. by right.
    + intros e He. split.
      * apply Hdash. rewrite Hcat. apply in_app_iff. by left.
      * intros E. apply (Hdisj (fst e)).
        -- apply list_elem_of_In. by apply in_map.
        -- apply list_elem_of_In. rewrite E. by apply (in_map fst _ (r, c)).
Qed.

Lemma failed_call_ends_the_refresh_witness :
  checkRoutes flaky sample_ptv after_both_polls default_buffer = Failed after_both_polls.
Proof.
  apply (failed_call_ends_the_refresh flaky sample_ptv default_buffer
           after_both_polls after_both_polls [] "4" cranbourne
           (tl (JS.entries connections))).
  - vm_compute. reflexivity.
  - reflexivity.
  - left. vm_compute. reflexivity.
Defined.

Lemma failed_call_skips_later_connections :
  checkRoutes flaky sample_ptv no_globals default_buffer = Failed no_globals
  /\ call_runs flaky sample_ptv "11" pakenham = Resolved one_departure
  /\ call_departures flaky sample_ptv "11" pakenham = Resolved one_departure
  /\ JS.get (services (globals_of (checkRoutes flaky sample_ptv no_globals default_buffer)))
            (idString "11" 10 1150 0) = None.
Proof. repeat split; vm_compute; reflexivity. Qed.

(** ** Sorting *)

Section SortFacts.
Context {A : Type} (compareFn : A -> A -> JS.number).

Lemma insert_perm x l : Permutation (JS.insert compareFn x l) (x :: l).
Proof.
  induction l as [|y l IH]; simpl; [done|].
  destruct (JS.compare_sign (compareFn x y) <=? 0); [done|].
  rewrite IH. apply perm_swap.
Qed.

Lemma sort_perm l : Permutation (JS.sort compareFn l) l.
Proof.
  induction l as [|x l IH]; simpl; [done|].
  rewrite insert_perm. by constructor.
Qed.

Variables (R : A -> A -> Prop) (ok : A -> Prop).
Hypothesis R_trans : forall a b c, R a b -> R b c -> R a c.
Hypothesis compare_le :
  forall a b, ok a -> ok b -> JS.compare_sign (compareFn a b) <= 0 -> R a b.
Hypothesis compare_gt :
  forall a b, ok a -> ok b -> 0 < JS.compare_sign (compareFn a b) -> R b a.

Lemma insert_sorted x l :
  ok x -> Forall ok l -> StronglySorted R l ->
  StronglySorted R (JS.insert compareFn x l).
Proof.
  intros Hx. induction l as [|y l IH]; intros Hok Hsorted; simpl.
  - repeat constructor.
  - apply Forall_cons in Hok as [Hy Hok].
    apply StronglySorted_inv in Hsorted as [Hsorted Hall].
    destruct (Z.leb_spec (JS.compare_sign (compareFn x y)) 0) as [Hle|Hgt].
    + constructor; [by constructor|]. constructor; [by apply compare_le|].
      eapply Forall_impl; [exact Hall|]. intros z Hz.
      eapply R_trans; [by apply compare_le | done].
    + constructor; [by apply IH|].
      apply Forall_forall. intros z Hz.
      apply list_elem_of_In, (Permutation_in _ (insert_perm x l)) in Hz as [<- | Hz].
      * by apply compare_gt.
      * rewrite Forall_forall in Hall. by apply Hall, list_elem_of_In.
Qed.

Lemma sort_sorted l : Forall ok l -> StronglySorted R (JS.sort compareFn l).
Proof.
  induction l as [|x l IH]; intros Hok; simpl; [constructor|].
  apply Forall_cons in Hok as [Hx Hok]. apply insert_sorted; [done | | by apply IH].
  apply Forall_forall. intros z Hz. rewrite Forall_forall in Hok. apply Hok.
  apply list_elem_of_In. apply list_elem_of_In in Hz.
  by apply (Permutation_in _ (sort_perm l)).
Qed.
End SortFacts.

Lemma filter_sorted {A} (R : A -> A -> Prop) (f : A -> bool) l :
  StronglySorted R l -> StronglySorted R (List.filter f l).
Proof.
  induction 1 as [|x l Hsorted IH Hall]; simpl; [constructor|].
  destruct (f x); [|done]. constructor; [done|].
  apply Forall_forall. intros z Hz. apply list_elem_of_In, filter_In in Hz as [Hz _].
  rewrite Forall_forall in Hall. by apply Hall, list_elem_of_In.
Qed.

Lemma filter_perm {A} (f : A -> bool) (l l' : list A) :
  Permutation l l' -> Permutation (List.filter f l) (List.filter f l').
Proof.
  induction 1 as [|x l l' _ IH|x y l|l l' l'' _ IH1 _ IH2]; simpl.
  - constructor.
  - destruct (f x); [by constructor | done].
  - destruct (f x), (f y); try done. apply perm_swap.
  - by etrans.
Qed.

(** ** The table shown by a tick *)

Lemma arrives_no_later_trans a b c :
  arrives_no_later a b -> arrives_no_later b c -> arrives_no_later a c.
Proof.
  intros (x & y & Ha & Hb & Hxy) (y' & z & Hb' & Hc & Hyz).
  exists x, z. rewrite Hb in Hb'. injection Hb' as <-. repeat split; [done..|lia].
Qed.

Lemma by_arrival_le a b :
  well_formed a -> well_formed b ->
  JS.compare_sign (by_arrival a b) <= 0 -> arrives_no_later a b.
Proof.
  intros (_ & Ha & _) (_ & Hb & _). unfold by_arrival, arrives_no_later.
  destruct (Service.arrive_by a) as [x|]; [|done].
  destruct (Service.arrive_by b) as [y|]; [|done].
  simpl. intros H. exists x, y. repeat split. lia.
Qed.

Lemma by_arrival_gt a b :
  well_formed a -> well_formed b ->
  0 < JS.compare_sign (by_arrival a b) -> arrives_no_later b a.
Proof.
  intros (_ & Ha & _) (_ & Hb & _). unfold by_arrival, arrives_no_later.
  destruct (Service.arrive_by a) as [x|]; [|done].
  destruct (Service.arrive_by b) as [y|]; [|done].
  simpl. intros H. exists y, x. repeat split. lia.
Qed.

Lemma skipped_false buffer now service :
  JS.is_Num (Service.get_going_by service) ->
  skipped buffer now service = false <-> window_open buffer now service.
Proof.
  unfold skipped, td, window_open.
  destruct (Service.get_going_by service) as [going|]; [|done]. intros _. simpl.
  rewrite Z.ltb_ge. split.
  - intros H. exists going. split; [done | lia].
  - intros (going' & [= <-] & H). lia.
Qed.

Lemma render_all_resolves now l :
  Forall well_formed l ->
  exists rows, render_all now l = Resolved rows
               /\ List.map timerTitle rows = List.map Service.id l.
Proof.
  induction 1 as [|service l (_ & _ & [connection Hroute]) _ (rows & Hrows & Hids)]; simpl.
  - by exists [].
  - unfold render. rewrite Hroute, Hrows. eexists. split; [done|]. simpl. by rewrite Hids.
Qed.

Lemma listed_in services buffer now service :
  In service (listed services buffer now) <->
  In service (JS.values services) /\ skipped buffer now service = false.
Proof.
  unfold listed, sortedServices. rewrite filter_In, negb_true_iff.
  split; intros [Hin Hskip]; (split; [|done]).
  - by apply (Permutation_in _ (sort_perm by_arrival _)).
  - by apply (Permutation_in _ (Permutation_sym (sort_perm by_arrival _))).
Qed.

Lemma listed_well_formed services buffer now :
  Forall well_formed (JS.values services) ->
  Forall well_formed (listed services buffer now).
Proof.
  intros Hwf. apply Forall_forall. intros service Hin.
  apply list_elem_of_In, listed_in in Hin as [Hin _].
  rewrite Forall_forall in Hwf. by apply Hwf, list_elem_of_In.
Qed.

Lemma listed_sorted services buffer now :
  Forall well_formed (JS.values services) ->
  StronglySorted arrives_no_later (listed services buffer now).
Proof.
  intros Hwf. unfold listed, sortedServices. apply filter_sorted.
  apply (sort_sorted by_arrival arrives_no_later well_formed);
    [apply arrives_no_later_trans | apply by_arrival_le | apply by_arrival_gt | done].
Qed.

(** C4: over a table of well-formed Services, a tick renders one row per
    listed Service; the listed Services are those of the table whose
    window is still open, each as often as it is in the table, in
    ascending order of [arrive_by]. *)
Theorem tick_lists_open_windows_by_arrival (services : JS.Obj Service.t) (buffer now : Z) :
  Forall well_formed (JS.values services) ->
  let published := listed services buffer now in
  (exists rows, updateTable services buffer now = Resolved rows
                /\ List.map timerTitle rows = List.map Service.id published)
  /\ (forall service,
        In service published <->
        In service (JS.values services) /\ window_open buffer now service)
  /\ (forall service going,
        In service published ->
        Service.get_going_by service = JS.Num going ->
        ~ now - going > buffer * 1000)
  /\ Permutation published
       (List.filter (fun service => negb (skipped buffer now service)) (JS.values services))
  /\ StronglySorted arrives_no_later published.
Proof.
  intros Hwf published.
  assert (Hopen : forall service,
             In service published <->
             In service (JS.values services) /\ window_open buffer now service).
  { intros service. subst published. rewrite listed_in. split.
    - intros [Hin Hskip]. split; [done|]. apply skipped_false; [|done].
      rewrite Forall_forall in Hwf. by apply (Hwf service), list_elem_of_In.
    - intros [Hin Hw]. split; [done|]. apply skipped_false; [|done].
      rewrite Forall_forall in Hwf. by apply (Hwf service), list_elem_of_In. }
  split; [|split; [|split; [|split]]].
  - by apply render_all_resolves, listed_well_formed.
  - exact Hopen.
  - intros service going Hin Hgoing Hlate.
    apply Hopen in Hin as [_ (going' & Hgoing' & Hw)].
    rewrite Hgoing in Hgoing'. injection Hgoing' as <-. lia.
  - subst published. unfold listed, sortedServices.
    apply filter_perm, sort_perm.
  - by apply listed_sorted.
Qed.

Lemma sample_table_well_formed : Forall well_formed (JS.values (services after_both_polls)).
Proof.
  vm_compute. repeat (constructor; [repeat split; eexists; reflexivity|]). constructor.
Qed.

Lemma tick_lists_open_windows_by_arrival_witness :
  exists rows,
    updateTable (services after_both_polls) default_buffer 1704095200000 = Resolved rows
    /\ List.map timerTitle rows = ["4-4-1150-1"].
Proof.
  destruct (tick_lists_open_windows_by_arrival (services after_both_polls) default_buffer
              1704095200000) as [(rows & Hrows & Hids) _].
  - vm_compute. repeat (constructor; [repeat split; eexists; reflexivity|]). constructor.
  - exists rows. split; [exact Hrows|]. rewrite Hids. vm_compute. reflexivity.
Defined.

Example tick_before_the_first_deadline :
  List.map Service.id (listed (services after_both_polls) default_buffer 1704095000000)
  = ["4-4-1150-0"; "11-10-1150-0"; "4-4-1150-1"].
Proof. vm_compute. reflexivity. Qed.

(** ** Every table the program builds is well formed *)

Lemma catalog_usable : Forall usable (JS.entries connections).
Proof.
  vm_compute. repeat (constructor; [repeat split; eexists; reflexivity|]). constructor.
Qed.

Lemma build_well_formed routeId connection buffer activeRuns E departures index departure :
  usable (routeId, connection) ->
  well_formed (build routeId connection buffer activeRuns E departures index departure).
Proof.
  intros (Hid & [before Hbefore] & [later Hlater]). unfold well_formed. simpl in *.
  rewrite Hbefore, Hlater. done.
Qed.

Lemma merge_well_formed g routeId connection buffer runs departures :
  usable (routeId, connection) ->
  Forall well_formed (JS.values (services g)) ->
  Forall well_formed (JS.values (services (merge g routeId connection buffer runs departures))).
Proof.
  intros Husable Hwf. rewrite merge_services.
  destruct (Json.departures departures) as [ds|]; [|done].
  apply Forall_forall. intros s Hs.
  apply list_elem_of_In, write_loop_values in Hs as [Hs | (e & _ & ->)].
  - rewrite Forall_forall in Hwf. by apply Hwf, list_elem_of_In.
  - by apply build_well_formed.
Qed.

Lemma launch_sound w : sound w -> sound (launch w).
Proof.
  intros [Hwf Htasks]. destruct (launch_tasks w) as (t & Ht & Hg & _ & _ & Hentries).
  split; [by rewrite Hg|]. rewrite Ht. apply Forall_app. split; [done|].
  constructor; [|constructor]. rewrite Hentries. apply catalog_usable.
Qed.

Lemma step_sound w e w' : sound w -> step w e = Some w' -> sound w'.
Proof.
  intros Hsound. destruct e as [|now|i r]; simpl.
  - intros [= <-]. by apply launch_sound.
  - by intros [= <-].
  - destruct Hsound as [Hwf Htasks].
    destruct (tasks w !! i) as [t|] eqn:Ht; [|done].
    pose proof (Forall_lookup_1 _ _ _ _ Htasks Ht) as Hentries.
    apply Forall_cons in Hentries as [Hcurrent Hrest].
    unfold resume. destruct r as [payload|].
    + destruct (waiting t) as [|runs].
      * intros [= <-]. split; [done|]. simpl. apply Forall_insert; [done|].
        by constructor.
      * assert (Hwf' : Forall well_formed
                         (JS.values (services (merge (globals w) (fst (current t))
                                                     (snd (current t)) (buffer t)
                                                     runs payload)))).
        { apply merge_well_formed; [by destruct (current t) | done]. }
        destruct (rest t) as [|entry entries] eqn:Hr; simpl; intros [= <-].
        -- split; [done|]. by apply Forall_delete.
        -- split; [done|]. simpl. by apply Forall_insert.
    + intros [= <-]. split; [done|]. by apply Forall_delete.
Qed.

Lemma run_sound w events w' : sound w -> run w events = Some w' -> sound w'.
Proof.
  revert w. induction events as [|e events IH]; intros w Hsound; simpl.
  - by intros [= <-].
  - destruct (step w e) as [w1|] eqn:Hstep; [|done].
    apply IH. by eapply step_sound.
Qed.

Lemma boot_sound : sound boot.
Proof. apply launch_sound. split; constructor. Qed.

(** X7: in every state the program reaches, a tick renders its table in full,
    in ascending order of arrival. *)
Corollary reachable_tick_renders events w now :
  run boot events = Some w ->
  (exists rows, shown w now = Resolved rows)
  /\ StronglySorted arrives_no_later (listed (services (globals w)) default_buffer now).
Proof.
  intros Hrun. destruct (run_sound _ _ _ boot_sound Hrun) as [Hwf _]. split.
  - destruct (render_all_resolves now _ (listed_well_formed _ default_buffer now Hwf))
      as (rows & Hrows & _).
    by exists rows.
  - by apply listed_sorted.
Qed.


(** * Further properties *)

(** ** Strings *)

Lemma append_nil_l s : "" +:+ s = s.
Proof. reflexivity. Qed.

Lemma append_cons a s t : String a s +:+ t = String a (s +:+ t).
Proof. reflexivity. Qed.

Lemma append_nil_r s : s +:+ "" = s.
Proof. induction s as [|a s IH]; [done|]. by rewrite append_cons, IH. Qed.

Lemma append_assoc s t u : (s +:+ t) +:+ u = s +:+ (t +:+ u).
Proof. induction s as [|a s IH]; [done|]. by rewrite !append_cons, IH. Qed.

Lemma length_append s t : String.length (s +:+ t) = (String.length s + String.length t)%nat.
Proof. induction s as [|a s IH]; [done|]. rewrite append_cons. simpl. by rewrite IH. Qed.

Lemma has_char_append c s t : has_char c (s +:+ t) = has_char c s || has_char c t.
Proof.
  induction s as [|a s IH]; [done|]. rewrite append_cons. simpl.
  by rewrite IH, orb_assoc.
Qed.

(** A prefix free of a separator, in front of that separator, is
    determined by the whole string. *)
Lemma sep_prefix_inj c a b x y :
  has_char c a = false -> has_char c b = false ->
  a +:+ String c x = b +:+ String c y -> a = b /\ x = y.
Proof.
  revert b. induction a as [|d a IH]; intros [|d' b] Ha Hb;
    rewrite ?append_nil_l, ?append_cons; simpl in *.
  - intros [= ->]. done.
  - intros [= <- _]. by rewrite Ascii.eqb_refl in Hb.
  - intros [= -> _]. by rewrite Ascii.eqb_refl in Ha.
  - apply orb_false_iff in Ha as [_ Ha]. apply orb_false_iff in Hb as [_ Hb].
    intros [= -> E]. destruct (IH b Ha Hb E) as [-> ->]. done.
Qed.

Lemma string_of_uint_no_colon d : has_char colon (NilEmpty.string_of_uint d) = false.
Proof. induction d; simpl; auto. Qed.

Lemma string_of_uint_nonempty d : d <> Decimal.Nil -> NilEmpty.string_of_uint d <> "".
Proof. by destruct d. Qed.

Lemma ToString_length n : (1 <= String.length (JS.ToString n))%nat.
Proof.
  unfold JS.ToString.
  assert (N.to_uint n <> Decimal.Nil) as H.
  { destruct n; [done | apply DecimalPos.Unsigned.to_uint_nonnil]. }
  destruct (N.to_uint n); [done | simpl; lia ..].
Qed.

Lemma zeros_no_colon k : has_char colon (string_of_list_ascii (repeat "0"%char k)) = false.
Proof. induction k as [|k IH]; [done|]. simpl. exact IH. Qed.

Lemma padStart_no_colon n k : has_char colon (padStart (JS.ToString n) k "0") = false.
Proof.
  unfold padStart. rewrite has_char_append, zeros_no_colon. apply string_of_uint_no_colon.
Qed.

Lemma padStart_1 n : padStart (JS.ToString n) 1 "0" = JS.ToString n.
Proof.
  unfold padStart. pose proof (ToString_length n).
  by replace (1 - String.length (JS.ToString n))%nat with 0%nat by lia.
Qed.

(** ** formatTimeDelta *)

Lemma two_digit_table :
  NoDup ((fun i => padStart (JS.ToString (N.of_nat i)) 2 "0") <$> seq 0 60).
Proof. apply (bool_decide_unpack _). vm_compute. exact I. Qed.

Lemma two_digits_inj n m :
  (n < 60)%N -> (m < 60)%N ->
  padStart (JS.ToString n) 2 "0" = padStart (JS.ToString m) 2 "0" -> n = m.
Proof.
  intros Hn Hm E. apply N2Nat.inj.
  apply (NoDup_lookup _ _ _ (padStart (JS.ToString n) 2 "0") two_digit_table).
  - rewrite list_lookup_fmap, lookup_seq_lt by lia. simpl. by rewrite N2Nat.id.
  - rewrite list_lookup_fmap, lookup_seq_lt by lia. simpl. by rewrite N2Nat.id, E.
Qed.

Lemma formatTimeDelta_nonneg a :
  0 <= a ->
  formatTimeDelta (JS.Num a)
  = (if 0 <? a / 3600000 then JS.ToString (Z.to_N (a / 3600000)) +:+ ":" else "")
      +:+ padStart (JS.ToString (Z.to_N (Z.rem (a / 60000) 60)))
                   (if 0 <? a / 3600000 then 2 else 1) "0"
      +:+ ":" +:+ padStart (JS.ToString (Z.to_N (Z.rem (a / 1000) 60))) 2 "0".
Proof.
  intros Ha. unfold formatTimeDelta. cbn [JS.ltb floor_div remainder show].
  replace (a <? 0) with false by (symmetry; apply Z.ltb_ge; lia).
  rewrite Z.abs_eq by lia. by rewrite append_nil_l.
Qed.

Lemma colon_append x : ":" +:+ x = String colon x.
Proof. reflexivity. Qed.

(** The text printed for [q] whole seconds. *)
Lemma formatTimeDelta_fields a :
  0 <= a ->
  let q := a / 1000 in
  formatTimeDelta (JS.Num a)
  = (if 0 <? q / 3600 then JS.ToString (Z.to_N (q / 3600)) +:+ ":" else "")
      +:+ padStart (JS.ToString (Z.to_N (Z.rem (q / 60) 60)))
                   (if 0 <? q / 3600 then 2 else 1) "0"
      +:+ ":" +:+ padStart (JS.ToString (Z.to_N (Z.rem q 60))) 2 "0".
Proof.
  intros Ha q. rewrite formatTimeDelta_nonneg by done. subst q.
  rewrite !Z.div_div by lia. done.
Qed.

Lemma fields_inj q q' :
  0 <= q -> 0 <= q' ->
  q / 3600 = q' / 3600 -> Z.rem (q / 60) 60 = Z.rem (q' / 60) 60 ->
  Z.rem q 60 = Z.rem q' 60 -> q = q'.
Proof.
  intros Hq Hq'. rewrite !Z.rem_mod_nonneg by (try apply Z.div_pos; lia).
  intros Hh Hm Hs.
  assert (Hd : forall x, x / 3600 = x / 60 / 60) by (intros x; rewrite Z.div_div by lia; reflexivity).
  rewrite !Hd in Hh.
  pose proof (Z.div_mod q 60). pose proof (Z.div_mod q' 60).
  pose proof (Z.div_mod (q / 60) 60). pose proof (Z.div_mod (q' / 60) 60). lia.
Qed.

(** X1: for deltas that are not negative, the text tells the whole seconds
    and nothing else: two deltas print alike exactly when they agree down
    to the second. *)
Theorem formatTimeDelta_whole_seconds a b :
  0 <= a -> 0 <= b ->
  formatTimeDelta (JS.Num a) = formatTimeDelta (JS.Num b) <-> a / 1000 = b / 1000.
Proof.
  intros Ha Hb. rewrite !formatTimeDelta_fields by done. cbv zeta.
  assert (Hq : 0 <= a / 1000) by (apply Z.div_pos; lia).
  assert (Hq' : 0 <= b / 1000) by (apply Z.div_pos; lia).
  generalize dependent (a / 1000). generalize dependent (b / 1000).
  intros q' Hq' q Hq. split; [|by intros ->].
  assert (Hfield : forall x, 0 <= x -> (Z.to_N (Z.rem x 60) < 60)%N).
  { intros x Hx. rewrite Z.rem_mod_nonneg by lia.
    pose proof (Z.mod_pos_bound x 60). lia. }
  assert (Hrem : forall x, 0 <= x -> 0 <= Z.rem x 60).
  { intros x Hx. rewrite Z.rem_mod_nonneg by lia.
    pose proof (Z.mod_pos_bound x 60). lia. }
  assert (Hdiv : forall x, 0 <= x -> 0 <= x / 60) by (intros; apply Z.div_pos; lia).
  assert (Hh : 0 <= q / 3600) by (apply Z.div_pos; lia).
  assert (Hh' : 0 <= q' / 3600) by (apply Z.div_pos; lia).
  destruct (Z.ltb_spec 0 (q / 3600)) as [Hpos|Hzero],
           (Z.ltb_spec 0 (q' / 3600)) as [Hpos'|Hzero'];
    rewrite ?append_assoc, ?append_nil_l, ?colon_append, ?padStart_1; intros E.
  - apply sep_prefix_inj in E as [Eh E]; [|apply string_of_uint_no_colon..].
    apply sep_prefix_inj in E as [Em Es]; [|apply padStart_no_colon..].
    apply ToString_inj, Z2N.inj in Eh; [|done..].
    apply two_digits_inj, Z2N.inj in Em; auto.
    apply two_digits_inj, Z2N.inj in Es; auto.
    by apply fields_inj.
  - exfalso. apply sep_prefix_inj in E as [_ E]; [|apply string_of_uint_no_colon..].
    assert (H : has_char colon (padStart (JS.ToString (Z.to_N (Z.rem q' 60))) 2 "0") = true).
    { rewrite <- E, has_char_append. simpl. by rewrite orb_true_r. }
    by rewrite padStart_no_colon in H.
  - exfalso. apply sep_prefix_inj in E as [_ E]; [|apply string_of_uint_no_colon..].
    assert (H : has_char colon (padStart (JS.ToString (Z.to_N (Z.rem q 60))) 2 "0") = true).
    { rewrite E, has_char_append. simpl. by rewrite orb_true_r. }
    by rewrite padStart_no_colon in H.
  - apply sep_prefix_inj in E as [Em Es]; [|apply string_of_uint_no_colon..].
    apply ToString_inj, Z2N.inj in Em; auto.
    apply two_digits_inj, Z2N.inj in Es; auto.
    apply fields_inj; [done.. | lia | done | done].
Qed.

Lemma formatTimeDelta_whole_seconds_witness :
  formatTimeDelta (JS.Num 65000) = formatTimeDelta (JS.Num 65999).
Proof. apply (formatTimeDelta_whole_seconds 65000 65999); [lia | lia | reflexivity]. Defined.

Lemma formatTimeDelta_sign ms :
  0 < ms -> formatTimeDelta (JS.Num (- ms)) = "-" +:+ formatTimeDelta (JS.Num ms).
Proof.
  intros Hms. unfold formatTimeDelta. cbn [JS.ltb].
  replace (- ms <? 0) with true by (symmetry; apply Z.ltb_lt; lia).
  replace (ms <? 0) with false by (symmetry; apply Z.ltb_ge; lia).
  rewrite Z.abs_opp. by rewrite (append_nil_l (_ +:+ _)).
Qed.

Lemma formatTimeDelta_below_a_second ms :
  0 <= ms < 1000 -> formatTimeDelta (JS.Num ms) = "0:00".
Proof.
  intros Hms. rewrite formatTimeDelta_fields by lia. cbv zeta.
  rewrite (Z.div_small ms 1000) by lia. reflexivity.
Qed.

(** X2: a negative delta prints as a minus sign in front of the text of its
    magnitude, also when the magnitude rounds down to zero seconds: a
    deadline missed by less than a second reads "-0:00". *)
Theorem formatTimeDelta_negative ms :
  0 < ms ->
  formatTimeDelta (JS.Num (- ms)) = "-" +:+ formatTimeDelta (JS.Num ms)
  /\ (ms < 1000 -> formatTimeDelta (JS.Num (- ms)) = "-0:00").
Proof.
  intros Hms. split; [by apply formatTimeDelta_sign|].
  intros Hlt. rewrite formatTimeDelta_sign by done.
  rewrite formatTimeDelta_below_a_second by lia. reflexivity.
Qed.

Lemma formatTimeDelta_negative_witness :
  formatTimeDelta (JS.Num (- 3723000)) = "-" +:+ formatTimeDelta (JS.Num 3723000)
  /\ formatTimeDelta (JS.Num (- 400)) = "-0:00".
Proof.
  split.
  - apply (formatTimeDelta_negative 3723000). lia.
  - apply (formatTimeDelta_negative 400); lia.
Defined.


(** ** updateTable *)









Lemma skipped_later buffer now now' service :
  now <= now' -> skipped buffer now service = true -> skipped buffer now' service = true.
Proof.
  unfold skipped, td. destruct (Service.get_going_by service); simpl; [|done].
  rewrite !Z.ltb_lt. lia.
Qed.

Lemma filter_sublist {A} (f g : A -> bool) l :
  (forall x, f x = true -> g x = true) ->
  sublist (List.filter f l) (List.filter g l).
Proof.
  intros Hfg. induction l as [|x l IH]; simpl; [constructor|].
  destruct (f x) eqn:Hf.
  - rewrite (Hfg x Hf). by constructor.
  - destruct (g x); [by constructor | done].
Qed.

(** X5: as long as no poll rewrites the table, the rows of a later tick are
    rows of the earlier one, in the same order: a Service that has
    dropped out does not come back. *)
Theorem listed_shrinks (services : JS.Obj Service.t) (buffer now now' : Z) :
  now <= now' ->
  sublist (listed services buffer now') (listed services buffer now).
Proof.
  intros Hle. unfold listed. apply filter_sublist. intros service.
  rewrite !negb_true_iff. intros Hlater.
  destruct (skipped buffer now service) eqn:Hnow; [|done].
  by rewrite (skipped_later _ _ _ _ Hle Hnow) in Hlater.
Qed.

Lemma listed_shrinks_witness :
  sublist (listed (services after_both_polls) default_buffer 1704095200000)
          (listed (services after_both_polls) default_buffer 1704095000000).
Proof. apply listed_shrinks. lia. Defined.

(** X6: a connection without a walking time for its forward origin gives
    Services whose [get_going_by] is an Invalid Date, and such a Service
    is never skipped: as long as it is in the table it has a row at every
    tick, whatever the time and the buffer. *)
Theorem invalid_deadline_never_expires
    routeId connection buffer activeRuns E departures index departure :
  JS.iget (walking connection) (origin (forward_direction connection)) = None ->
  let service := build routeId connection buffer activeRuns E departures index departure in
  Service.get_going_by service = JS.NaN
  /\ forall services buffer' now,
       In service (JS.values services) -> In service (listed services buffer' now).
Proof.
  intros Hwalk service.
  assert (Hnan : Service.get_going_by service = JS.NaN).
  { subst service. simpl. by rewrite Hwalk. }
  split; [done|]. intros services buffer' now Hin.
  apply listed_in. split; [done|]. unfold skipped, td. by rewrite Hnan.
Qed.

Lemma invalid_deadline_never_expires_witness :
  let service := build "4" no_walk default_buffer [] ∅ second_poll_departures 0 train_0800 in
  In service (listed [("4-4-1150-0", service)] default_buffer 4102444800000).
Proof.
  intros service.
  apply (invalid_deadline_never_expires "4" no_walk default_buffer [] ∅
           second_poll_departures 0 train_0800); [reflexivity|].
  simpl. by left.
Defined.

Lemma reachable_tick_renders_witness :
  exists rows,
    shown (after first_poll_awaited (first_poll_settles :: overlapping_refresh))
          1704095000000 = Resolved rows.
Proof.
  apply (reachable_tick_renders
           [Settle 0 (Resolved first_poll_runs); first_poll_settles;
            Refresh; Settle 1 (Resolved second_poll_runs)]).
  vm_compute. reflexivity.
Defined.


(** ** The table over the life of the program *)

Section MoreObjFacts.
Context {V : Type}.
Implicit Types (o : JS.Obj V) (k : string) (v : V).

Lemma set_same o k v : JS.get o k = Some v -> JS.set o k v = o.
Proof.
  induction o as [|[k' v'] o IH]; simpl; [done|].
  destruct (String.eqb k k') eqn:E.
  - apply String.eqb_eq in E as ->. by intros [= ->].
  - intros H. by rewrite IH.
Qed.

Lemma set_entries o k v e : In e (JS.set o k v) -> e = (k, v) \/ In e o.
Proof.
  induction o as [|[k' v'] o IH]; simpl.
  - intuition.
  - destruct (String.eqb k k'); simpl; intuition.
Qed.

Lemma keys_set_prefix o k v : JS.keys o `prefix_of` JS.keys (JS.set o k v).
Proof.
  induction o as [|[k' v'] o IH]; simpl.
  - apply prefix_nil.
  - destruct (String.eqb k k') eqn:E; simpl.
    + apply String.eqb_eq in E as ->. done.
    + by apply prefix_cons.
Qed.
End MoreObjFacts.

Lemma write_loop_prefix routeId connection buffer activeRuns E departures
    (es : list (nat * Departure.t)) sv :
  JS.keys sv `prefix_of`
  JS.keys (fold_left (write routeId connection buffer activeRuns E departures) es sv).
Proof.
  revert sv. induction es as [|e es IH]; intros sv; simpl; [done|].
  etrans; [|apply IH]. apply keys_set_prefix.
Qed.

Lemma write_loop_entries routeId connection buffer activeRuns E departures
    (es : list (nat * Departure.t)) sv entry :
  In entry (fold_left (write routeId connection buffer activeRuns E departures) es sv) ->
  In entry sv
  \/ exists e, In e es
       /\ entry = (idString routeId (dir_id (forward_direction connection))
                            (origin (forward_direction connection)) (fst e),
                   build routeId connection buffer activeRuns E departures (fst e) (snd e)).
Proof.
  revert sv. induction es as [|e es IH]; intros sv; simpl; [by left|].
  intros Hin. apply IH in Hin as [Hin | (e' & He' & ->)].
  - unfold write in Hin. apply set_entries in Hin as [-> | Hin]; [|by left].
    right. exists e. split; [by left | done].
  - right. exists e'. split; [by right | done].
Qed.

Lemma merge_prefix g routeId connection buffer runs departures :
  JS.keys (services g)
  `prefix_of` JS.keys (services (merge g routeId connection buffer runs departures)).
Proof.
  rewrite merge_services. destruct (Json.departures departures); [|done].
  apply write_loop_prefix.
Qed.

Lemma step_prefix w e w' :
  step w e = Some w' ->
  JS.keys (services (globals w)) `prefix_of` JS.keys (services (globals w')).
Proof.
  intros H. apply step_globals in H as [-> | (i & t & r & _ & _ & ->)]; [done|].
  unfold resume. destruct r as [payload|]; [|done].
  destruct (waiting t); [done | apply merge_prefix].
Qed.

(** X8: no id ever leaves the table and none changes place: whatever
    callbacks run, the ids that the table enumerates now are the first
    ids that it enumerates later, in the same order; new ids go to the
    end. *)
Theorem table_ids_stay (w : World) (events : list Event) (w' : World) :
  run w events = Some w' ->
  JS.keys (services (globals w)) `prefix_of` JS.keys (services (globals w')).
Proof.
  revert w. induction events as [|e events IH]; intros w; simpl.
  - by intros [= <-].
  - destruct (step w e) as [w1|] eqn:Hstep; [|done].
    intros Hrun. etrans; [by eapply step_prefix | by apply IH].
Qed.

Lemma table_ids_stay_witness :
  JS.keys (services (globals quiet_world))
  `prefix_of`
  JS.keys (services (globals (after quiet_world (second_refresh ++ [second_poll_settles])))).
Proof.
  apply (table_ids_stay quiet_world (second_refresh ++ [second_poll_settles])).
  vm_compute. reflexivity.
Defined.

Lemma catalog_filed :
  Forall (fun e => JS.iget connections (id (snd e)) = Some (snd e)
                   /\ fst e = JS.ToString (id (snd e)))
         (JS.entries connections).
Proof. vm_compute. repeat (constructor; [split; reflexivity|]). constructor. Qed.

Lemma merge_orderly g routeId connection buffer runs departures :
  In (routeId, connection) (JS.entries connections) ->
  Forall slot_of_catalog (services g) ->
  Forall slot_of_catalog (services (merge g routeId connection buffer runs departures)).
Proof.
  intros Hin Hslots. rewrite merge_services.
  destruct (Json.departures departures) as [ds|]; [|done].
  apply Forall_forall. intros entry Hentry.
  apply list_elem_of_In, write_loop_entries in Hentry as [Hentry | (e & _ & ->)].
  - rewrite Forall_forall in Hslots. by apply Hslots, list_elem_of_In.
  - pose proof catalog_filed as Hfiled. rewrite Forall_forall in Hfiled.
    destruct (Hfiled _ (proj2 (list_elem_of_In _ _) Hin)) as [Hget Hkey].
    simpl in Hget, Hkey. split; [done|].
    exists connection, (fst e). cbn [snd fst build Service.route_id]. by rewrite Hkey.
Qed.

Lemma launch_orderly w : orderly w -> orderly (launch w).
Proof.
  intros [Hslots Htasks]. destruct (launch_tasks w) as (t & Ht & Hg & _ & Hbuf & Hentries).
  split; [by rewrite Hg|]. rewrite Ht. apply Forall_app. split; [done|].
  constructor; [|constructor]. split; [done|]. rewrite Hentries. by exists [].
Qed.

Lemma step_orderly w e w' : orderly w -> step w e = Some w' -> orderly w'.
Proof.
  intros Horderly. destruct e as [|now|i r]; simpl.
  - intros [= <-]. by apply launch_orderly.
  - by intros [= <-].
  - destruct Horderly as [Hslots Htasks].
    destruct (tasks w !! i) as [t|] eqn:Ht; [|done].
    destruct (Forall_lookup_1 _ _ _ _ Htasks Ht) as [Hbuf Hsuffix].
    unfold resume. destruct r as [payload|].
    + destruct (waiting t) as [|runs].
      * intros [= <-]. split; [done|]. simpl. by apply Forall_insert.
      * assert (Hin : In (fst (current t), snd (current t)) (JS.entries connections)).
        { apply list_elem_of_In. destruct (current t) as [r c]. cbn [fst snd].
          destruct Hsuffix as [before ->]. apply elem_of_app. right. by left. }
        pose proof (merge_orderly (globals w) _ _ (buffer t) runs payload Hin Hslots)
          as Hslots'.
        destruct (rest t) as [|entry entries] eqn:Hr; simpl; intros [= <-].
        -- split; [done|]. by apply Forall_delete.
        -- split; [done|]. simpl. apply Forall_insert; [done|]. split; [done|].
           simpl. by eapply suffix_cons_l.
    + intros [= <-]. split; [done|]. by apply Forall_delete.
Qed.

Lemma run_orderly w events w' : orderly w -> run w events = Some w' -> orderly w'.
Proof.
  revert w. induction events as [|e events IH]; intros w Horderly; simpl.
  - by intros [= <-].
  - destruct (step w e) as [w1|] eqn:Hstep; [|done].
    apply IH. by eapply step_orderly.
Qed.

Lemma boot_orderly : orderly boot.
Proof. apply launch_orderly. split; constructor. Qed.

(** X9: in every state the program reaches, what the table holds under an id
    is a Service that carries that same id, and the id is a slot of the
    forward direction and origin stop of the catalog connection that the
    Service names as its route. *)
Theorem table_holds_catalog_slots (events : list Event) (w : World) (k : string)
    (service : Service.t) :
  run boot events = Some w ->
  JS.get (services (globals w)) k = Some service ->
  Service.id service = k
  /\ exists connection index,
       JS.iget connections (Service.route_id service) = Some connection
       /\ k = idString (JS.ToString (id connection))
                       (dir_id (forward_direction connection))
                       (origin (forward_direction connection)) index.
Proof.
  intros Hrun Hget. destruct (run_orderly _ _ _ boot_orderly Hrun) as [Hslots _].
  assert (Hin : In (k, service) (services (globals w))).
  { clear Hslots. induction (services (globals w)) as [|[k' s'] o IH]; simpl in *; [done|].
    destruct (String.eqb k k') eqn:E.
    - apply String.eqb_eq in E as ->. injection Hget as ->. by left.
    - right. by apply IH. }
  rewrite Forall_forall in Hslots. apply (Hslots (k, service)). by apply list_elem_of_In.
Qed.

Lemma table_holds_catalog_slots_witness :
  Service.id first_poll_service = "4-4-1150-0".
Proof.
  apply (table_holds_catalog_slots
           [Settle 0 (Resolved first_poll_runs); first_poll_settles]
           (after first_poll_awaited [first_poll_settles])
           "4-4-1150-0" first_poll_service).
  - vm_compute. reflexivity.
  - vm_compute. reflexivity.
Defined.

(** X10: in every state the program reaches, each refresh in flight has the
    default buffer of 120 seconds and is somewhere in the enumeration of
    the catalog: the connection it is at and those it still has to visit
    are the catalog's last entries, in the catalog's ascending order of
    route id. *)
Theorem tasks_walk_the_catalog (events : list Event) (w : World) (i : nat) (t : Task) :
  run boot events = Some w ->
  tasks w !! i = Some t ->
  buffer t = default_buffer
  /\ suffix (current t :: rest t) (JS.entries connections).
Proof.
  intros Hrun Ht. destruct (run_orderly _ _ _ boot_orderly Hrun) as [_ Htasks].
  exact (Forall_lookup_1 _ _ _ _ Htasks Ht).
Qed.

Lemma tasks_walk_the_catalog_witness :
  exists t,
    tasks (after first_poll_awaited [first_poll_settles]) !! 0%nat = Some t
    /\ buffer t = default_buffer
    /\ suffix (current t :: rest t) (JS.entries connections).
Proof.
  eexists. split; [vm_compute; reflexivity|].
  apply (tasks_walk_the_catalog
           [Settle 0 (Resolved first_poll_runs); first_poll_settles]
           (after first_poll_awaited [first_poll_settles]) 0).
  - vm_compute. reflexivity.
  - vm_compute. reflexivity.
Defined.

(** ** One poll, again *)

Lemma observe_idemp runs activeRuns (E : gset string) :
  observe runs activeRuns (observe runs activeRuns E) = observe runs activeRuns E.
Proof.
  unfold observe. destruct (Json.runs runs); [|done].
  apply set_eq. intros x. rewrite !elem_of_union. tauto.
Qed.

Lemma write_loop_noop routeId connection buffer activeRuns E departures
    (es : list (nat * Departure.t)) sv :
  (forall e, In e es ->
      JS.get sv (idString routeId (dir_id (forward_direction connection))
                          (origin (forward_direction connection)) (fst e))
      = Some (build routeId connection buffer activeRuns E departures (fst e) (snd e))) ->
  fold_left (write routeId connection buffer activeRuns E departures) es sv = sv.
Proof.
  induction es as [|e es IH]; intros Hes; simpl; [done|].
  unfold write at 2. rewrite set_same by (apply Hes; by left).
  apply IH. intros e' He'. apply Hes. by right.
Qed.

(** X11: a poll is idempotent: merging the same two payloads for the same
    connection a second time leaves the table, the order of its ids and
    [everActive] exactly as the first merge left them. *)
Theorem merge_twice g routeId connection buffer runs departures :
  merge (merge g routeId connection buffer runs departures)
        routeId connection buffer runs departures
  = merge g routeId connection buffer runs departures.
Proof.
  set (g1 := merge g routeId connection buffer runs departures).
  assert (HE : everActive (merge g1 routeId connection buffer runs departures)
               = everActive g1) by apply observe_idemp.
  assert (HS : services (merge g1 routeId connection buffer runs departures)
               = services g1).
  { rewrite merge_services, HE.
    destruct (Json.departures departures) as [ds|] eqn:Hds; [|done].
    apply write_loop_noop. intros [index departure] Hin.
    apply in_array_entries in Hin. by apply merge_slot with ds. }
  destruct (merge g1 routeId connection buffer runs departures) as [sv E].
  simpl in HE, HS. rewrite HE, HS. subst g1. reflexivity.
Qed.

(** X12: a payload without the array the program looks for counts as one with
    an empty array: no [departures] (or none in it) leaves the table as
    it was; no [runs] (or none in it) leaves [everActive] as it was and
    gives every Service of the poll [route_active] = false. *)
Theorem missing_arrays_count_as_empty g routeId connection buffer runs departures :
  (Json.departures departures = None \/ Json.departures departures = Some [] ->
   services (merge g routeId connection buffer runs departures) = services g)
  /\ (Json.runs runs = None \/ Json.runs runs = Some [] ->
      everActive (merge g routeId connection buffer runs departures) = everActive g
      /\ forall service,
           In service (built_by_merge g routeId connection buffer runs departures) ->
           route_active (Service.health service) = false).
Proof.
  split.
  - rewrite merge_services. intros [Hds | Hds]; rewrite Hds; reflexivity.
  - intros Hruns.
    assert (HaR : activeRuns_of runs (dir_id (forward_direction connection)) = []).
    { unfold activeRuns_of. destruct Hruns as [Hr | Hr]; rewrite Hr; reflexivity. }
    split.
    + simpl. unfold observe. rewrite HaR.
      destruct Hruns as [Hr | Hr]; rewrite Hr; [done|]. simpl.
      apply union_empty_l_L.
    + intros service Hin.
      apply in_built_by_merge in Hin as (ds & index & departure & _ & _ & ->).
      simpl. by rewrite HaR.
Qed.

Lemma missing_arrays_count_as_empty_witness :
  services (merge after_first_poll "4" cranbourne default_buffer
                  first_poll_runs (runs_payload []))
  = services after_first_poll.
Proof.
  apply (missing_arrays_count_as_empty after_first_poll "4" cranbourne default_buffer
           first_poll_runs (runs_payload [])).
  by left.
Defined.

(** ** A whole refresh *)






(** X15: a refresh whose calls are all settled by the browser with no other
    callback in between is the loop of [checkRoutes]: it ends within two
    settlements per connection, with the loop's result. *)
Theorem refresh_alone_is_the_loop b ptv buf entries g t :
  enter entries buf = Suspended t ->
  drive (2 * length entries) b ptv g t = Some (checkRoutes_loop b ptv buf entries g).
Proof.
  intros Henter. pose proof (drive_enter b ptv buf entries g) as H.
  by rewrite Henter in H.
Qed.


(** ** The signed API client *)

Example hexdigest_sample :
  hexdigest fixed_digest = "000f10a5ff0123456789abcdef7f803cc35a9e42".
Proof. reflexivity. Qed.

Lemma join_empty_cons s l : join "" (s :: l) = s +:+ join "" l.
Proof. destruct l; simpl; [by rewrite append_nil_r | done]. Qed.

Lemma unhex_byte b s :
  unhex (padStart (toString16 b) 2 "0" +:+ s)
  = match unhex s with Some bytes => Some (b :: bytes) | None => None end.
Proof. destruct b; reflexivity. Qed.

Lemma length_hex_byte b : String.length (padStart (toString16 b) 2 "0") = 2%nat.
Proof. destruct b; reflexivity. Qed.

Lemma unhex_hexdigest signature : unhex (hexdigest signature) = Some signature.
Proof.
  unfold hexdigest. induction signature as [|b signature IH]; [done|].
  cbn [List.map]. by rewrite join_empty_cons, unhex_byte, IH.
Qed.

Lemma length_hexdigest signature :
  String.length (hexdigest signature) = (2 * length signature)%nat.
Proof.
  unfold hexdigest. induction signature as [|b signature IH]; [done|].
  cbn [List.map]. rewrite join_empty_cons, length_append, length_hex_byte, IH.
  simpl. lia.
Qed.

(** X16: the signature text is the digest written as two lower-case
    hexadecimal digits per byte: it is twice as long as the digest (40
    characters for SHA-1), reads back to the digest, and so differs for
    different digests; [generateSignature] is rejected exactly when the
    browser's signing is. *)
Theorem generateSignature_is_the_hexdigest (subtle : SubtleCrypto) (key request : string) :
  match PTVv3_generateSignature subtle key request with
  | Resolved signature =>
      exists digest,
        sign_HMAC_SHA1 subtle (encode key) (encode request) = Resolved digest
        /\ unhex signature = Some digest
        /\ String.length signature = (2 * length digest)%nat
        /\ forall digest', hexdigest digest' = signature -> digest' = digest
  | Rejected => sign_HMAC_SHA1 subtle (encode key) (encode request) = Rejected
  end.
Proof.
  unfold PTVv3_generateSignature.
  destruct (sign_HMAC_SHA1 subtle (encode key) (encode request)) as [digest|]; [|done].
  exists digest. split; [done|]. split; [apply unhex_hexdigest|].
  split; [apply length_hexdigest|].
  intros digest' E. assert (Some digest' = Some digest) as [= ->]; [|done].
  by rewrite <- !unhex_hexdigest, E.
Qed.





Lemma refresh_alone_is_the_loop_witness :
  exists t,
    enter (JS.entries connections) default_buffer = Suspended t
    /\ drive 20 flaky sample_ptv no_globals t
       = Some (checkRoutes flaky sample_ptv no_globals default_buffer).
Proof.
  eexists. split; [reflexivity|].
  apply (refresh_alone_is_the_loop flaky sample_ptv default_buffer
           (JS.entries connections) no_globals).
  reflexivity.
Defined.

(** ** The fields that the Services of one poll share *)



Lemma generateSignature_is_the_hexdigest_witness :
  PTVv3_generateSignature fixed_subtle "key"
    "/v3/route_types?devid=3000001"
  = Resolved "000f10a5ff0123456789abcdef7f803cc35a9e42".
Proof.
  pose proof (generateSignature_is_the_hexdigest fixed_subtle "key"
                "/v3/route_types?devid=3000001") as H.
  destruct (PTVv3_generateSignature fixed_subtle "key" "/v3/route_types?devid=3000001")
    as [signature|] eqn:E; [|discriminate H].
  destruct H as (digest & [= <-] & Hunhex & _ & Hinj).
  f_equal. symmetry.
  assert (hexdigest fixed_digest = signature) as <-; [|reflexivity].
  by injection E.
Defined.
